(** * calenderParser: a shallow embedding of [parse_calendar.py]

    The development follows the layout of the Python module: character and
    string primitives ([str.strip], [str.upper], [in], [str.split], ...),
    the fragment of [re] the module uses, the keyword tables, the segment
    classifiers, the event segmenter ([merge_events]), the field formatter
    ([format_event_segments]) and the per-page driver ([extract_events]).

    Modelling conventions.
    - A Python [str] is a [list ascii].  The model covers ASCII text: the
      case mapping, the letter, digit and whitespace classes are those of
      Python on code points below 128, and a code at or above 128 is an
      opaque character (no case, not a letter, digit or blank).
    - Horizontal positions are Python floats coming from pdfplumber.  The
      module only compares them, subtracts two of them once and takes
      minima, so positions are kept abstract behind the [Coord] class;
      every theorem holds for any instance of it.
    - [datetime.strptime], [date.isoformat] and pdfplumber's
      [cluster_objects], [open], [pages] and [extract_words] are library
      code: they are section variables, and a concrete instance is
      supplied at the end for evaluation.
    - An uncaught Python exception is modelled by [None]. *)

From Stdlib Require Import List Bool Arith ZArith NArith Lia Ascii.
From Stdlib Require Import Permutation.
From Stdlib Require String.
Import ListNotations.
Import String.StringSyntax.

Open Scope string_scope.
Open Scope list_scope.
Open Scope bool_scope.

(** ** Strings *)

Definition str := list ascii.

Definition lit (s : String.string) : str := String.list_ascii_of_string s.
Coercion lit : String.string >-> str.

Module Char.

Definition code (c : ascii) : N := N_of_ascii c.

Definition between (lo hi : N) (c : ascii) : bool :=
  (lo <=? code c)%N && (code c <=? hi)%N.

(** [str.isspace] on one ASCII character: TAB, LF, VT, FF, CR, the four
    separators FS, GS, RS, US and the space.  [\s] of [re] is the same
    class on [str] patterns. *)
Definition isspace (c : ascii) : bool :=
  between 9 13 c || between 28 32 c.

Definition isdigit (c : ascii) : bool := between 48 57 c.
Definition isupper (c : ascii) : bool := between 65 90 c.
Definition islower (c : ascii) : bool := between 97 122 c.
Definition isalpha (c : ascii) : bool := isupper c || islower c.

Definition upper (c : ascii) : ascii :=
  if islower c then ascii_of_N (code c - 32) else c.

Definition eqb (a b : ascii) : bool := Ascii.eqb a b.

End Char.

Fixpoint str_eqb (a b : str) : bool :=
  match a, b with
  | [], [] => true
  | x :: a', y :: b' => Char.eqb x y && str_eqb a' b'
  | _, _ => false
  end.

(** [not s] for a string: the empty string is the only falsy one. *)
Definition is_empty {A} (l : list A) : bool :=
  match l with [] => true | _ => false end.

(** [s.upper()] *)
Definition upper (s : str) : str := map Char.upper s.

(** [s.startswith(p)] *)
Fixpoint startswith (p s : str) : bool :=
  match p, s with
  | [], _ => true
  | _ :: _, [] => false
  | x :: p', y :: s' => Char.eqb x y && startswith p' s'
  end.

(** [needle in s] *)
Fixpoint contains (needle s : str) : bool :=
  startswith needle s ||
  match s with
  | [] => false
  | _ :: s' => contains needle s'
  end.

(** [s.endswith(p)]: [p] is a prefix of some suffix of [s] that it
    exhausts. *)
Fixpoint endswith (p s : str) : bool :=
  str_eqb p s ||
  match s with
  | [] => false
  | _ :: s' => endswith p s'
  end.

(** [s.lstrip(chars)], [s.rstrip(chars)], [s.strip(chars)], the set of
    characters given by its membership test. *)
Fixpoint lstrip_by (p : ascii -> bool) (s : str) : str :=
  match s with
  | [] => []
  | c :: s' => if p c then lstrip_by p s' else s
  end.

Fixpoint rstrip_by (p : ascii -> bool) (s : str) : str :=
  match s with
  | [] => []
  | c :: s' =>
      match rstrip_by p s' with
      | [] => if p c then [] else [c]
      | r => c :: r
      end
  end.

Definition strip_by (p : ascii -> bool) (s : str) : str :=
  rstrip_by p (lstrip_by p s).

(** [s.strip()] *)
Definition strip (s : str) : str := strip_by Char.isspace s.

(** [s.strip(' ;')] *)
Definition in_space_semi (c : ascii) : bool :=
  Char.eqb c " "%char || Char.eqb c ";"%char.

Definition strip_space_semi (s : str) : str := strip_by in_space_semi s.

(** [sep.join(parts)] *)
Fixpoint join (sep : str) (parts : list str) : str :=
  match parts with
  | [] => []
  | [p] => p
  | p :: rest => p ++ sep ++ join sep rest
  end.

(** [s.split(c)] for a one-character separator: always at least one
    part. *)
Fixpoint split_char (c : ascii) (s : str) : list str :=
  match s with
  | [] => [[]]
  | x :: s' =>
      if Char.eqb x c then [] :: split_char c s'
      else match split_char c s' with
           | [] => [[x]]
           | p :: ps => (x :: p) :: ps
           end
  end.

(** [s.split()]: maximal runs of non-blank characters. *)
Fixpoint split_ws_aux (cur : str) (s : str) : list str :=
  match s with
  | [] => if is_empty cur then [] else [rev cur]
  | x :: s' =>
      if Char.isspace x
      then (if is_empty cur then split_ws_aux [] s'
            else rev cur :: split_ws_aux [] s')
      else split_ws_aux (x :: cur) s'
  end.

Definition split_ws (s : str) : list str := split_ws_aux [] s.

(** [s.replace(old, new)] for a non-empty [old]: occurrences are replaced
    left to right without overlap.  [skip] counts the characters of an
    occurrence already replaced that are still to be passed over. *)
Fixpoint replace_aux (old new : str) (skip : nat) (s : str) : str :=
  match s with
  | [] => []
  | c :: s' =>
      match skip with
      | S n => replace_aux old new n s'
      | O =>
          if startswith old s
          then new ++ replace_aux old new (Nat.pred (length old)) s'
          else c :: replace_aux old new 0 s'
      end
  end.

Definition replace (old new s : str) : str := replace_aux old new 0 s.

(** [s.split(sep, 1)[1]] for a non-empty [sep]: the text after the first
    occurrence of [sep]; [None] is the [IndexError] of indexing a
    one-element list when [sep] does not occur. *)
Fixpoint after_first (sep s : str) : option str :=
  if startswith sep s then Some (skipn (length sep) s)
  else match s with
       | [] => None
       | _ :: s' => after_first sep s'
       end.

(** ** The fragment of [re] used by the module

    Patterns are first-order terms and matching is backtracking with the
    priorities of [re]: a greedy repetition tries one more iteration before
    it tries to stop, an alternative tries its left branch first.  The
    matcher is written in continuation-passing style; the continuation
    receives the text that is left. *)

Module Re.

Inductive t : Type :=
| Eps : t
| Chr : (ascii -> bool) -> t
| Seq : t -> t -> t
| Alt : t -> t -> t
| Star : t -> t.

Definition Plus (r : t) : t := Seq r (Star r).
Definition Opt (r : t) : t := Alt r Eps.

(** [r{0,2}], [r{1,2}], [r{2}], [r{4}] *)
Definition Rep02 (r : t) : t := Opt (Seq r (Opt r)).
Definition Rep12 (r : t) : t := Seq r (Opt r).
Definition Rep2 (r : t) : t := Seq r r.
Definition Rep4 (r : t) : t := Seq r (Seq r (Seq r r)).

Definition Lit1 (c : ascii) : t := Chr (Char.eqb c).

Fixpoint Lit (s : str) : t :=
  match s with
  | [] => Eps
  | c :: s' => Seq (Lit1 c) (Lit s')
  end.

(** A literal under [re.IGNORECASE]. *)
Fixpoint LitI (s : str) : t :=
  match s with
  | [] => Eps
  | c :: s' =>
      Seq (Chr (fun d => Char.eqb (Char.upper c) (Char.upper d))) (LitI s')
  end.

(** [.] matches anything but a line feed. *)
Definition Dot : t := Chr (fun c => negb (Char.eqb c "010"%char)).
Definition Space : t := Chr Char.isspace.
Definition Digit : t := Chr Char.isdigit.
Definition Upper : t := Chr Char.isupper.
Definition Lower : t := Chr Char.islower.
Definition Alpha : t := Chr Char.isalpha.

Definition cont : Type := str -> option str.

(** A greedy repetition of [step]: one more iteration first, each
    iteration consuming at least one character, then the continuation.
    The fuel is the length of the text, which no repetition exceeds. *)
Fixpoint star_loop (step : str -> cont -> option str) (k : cont)
  (fuel : nat) (s : str) {struct fuel} : option str :=
  match fuel with
  | O => k s
  | S fuel' =>
      match step s (fun s' =>
                      if (length s' <? length s)%nat
                      then star_loop step k fuel' s' else None) with
      | Some x => Some x
      | None => k s
      end
  end.

Fixpoint run (r : t) (s : str) (k : cont) {struct r} : option str :=
  match r with
  | Eps => k s
  | Chr p =>
      match s with
      | c :: s' => if p c then k s' else None
      | [] => None
      end
  | Seq a b => run a s (fun s' => run b s' k)
  | Alt a b =>
      match run a s k with
      | Some x => Some x
      | None => run b s k
      end
  | Star a => star_loop (run a) k (length s) s
  end.

Definition at_end : cont :=
  fun rest => if is_empty rest then Some [] else None.

Definition anywhere : cont := fun rest => Some rest.

(** [re.fullmatch(r, s)] is not [None]. *)
Definition fullmatch (r : t) (s : str) : bool :=
  match run r s at_end with Some _ => true | None => false end.

(** [re.match(r, s)] : the length of the match at position 0. *)
Definition match_len (r : t) (s : str) : option nat :=
  match run r s anywhere with
  | Some rest => Some (length s - length rest)
  | None => None
  end.

Definition matches (r : t) (s : str) : bool :=
  match match_len r s with Some _ => true | None => false end.

(** [re.search(r, s)]: the leftmost position where [r] matches, as
    [(m.start(), m.group(0))]. *)
Fixpoint search_from (r : t) (pos : nat) (s : str) : option (nat * str) :=
  match match_len r s with
  | Some n => Some (pos, firstn n s)
  | None =>
      match s with
      | [] => None
      | _ :: s' => search_from r (S pos) s'
      end
  end.

Definition search (r : t) (s : str) : option (nat * str) :=
  search_from r 0 s.

(** [r.sub(f, s)] for a pattern that matches no empty text. *)
Fixpoint sub_aux (r : t) (f : str -> str) (skip : nat) (s : str) : str :=
  match s with
  | [] => []
  | c :: s' =>
      match skip with
      | S n => sub_aux r f n s'
      | O =>
          match match_len r s with
          | Some (S n) => f (firstn (S n) s) ++ sub_aux r f n s'
          | _ => c :: sub_aux r f 0 s'
          end
      end
  end.

Definition sub (r : t) (f : str -> str) (s : str) : str := sub_aux r f 0 s.

End Re.

(** ** Module constants *)

(** [DATE_PATTERN = ([A-Za-z]+ \d{1,2}, \d{4})] *)
Definition DATE_PATTERN : Re.t :=
  Re.Seq (Re.Plus Re.Alpha)
    (Re.Seq (Re.Lit1 " ")
       (Re.Seq (Re.Rep12 Re.Digit)
          (Re.Seq (Re.Lit ", ") (Re.Rep4 Re.Digit)))).

Definition DAY_NAMES : list str :=
  [lit "Monday"; lit "Tuesday"; lit "Wednesday"; lit "Thursday";
   lit "Friday"; lit "Saturday"; lit "Sunday"].

Definition DAY_NAMES_UPPER : list str := map upper DAY_NAMES.

(** [DIGITS_ONLY_PATTERN = ^[0-9]+$].  It is only used through
    [fullmatch], where the two anchors add nothing: the match has to span
    the whole text and the class matches no line feed. *)
Definition DIGITS_ONLY_PATTERN : Re.t := Re.Plus Re.Digit.

Definition TIME_COLUMN_X_THRESHOLD : Z := 70.
Definition INDENT_NEW_EVENT_THRESHOLD : Z := 25.
Definition FOOTER_X_THRESHOLD : Z := 200.

Definition NOISE_SEGMENTS : list str := [lit "BOI BOI"].

Definition SPECIAL_SPLIT_MARKERS : list str :=
  [lit "CHIEF'S CONFERENCE"; lit "CHIEFS CONFERENCE"].

Definition LOCATION_HINTS : list str :=
  [lit "MICROSOFT TEAMS"; lit "IN PERSON"; lit "TELECONFERENCE"; lit "ZOOM";
   lit "BOI"; lit "ANC"; lit "JNU"; lit "ROOM"; lit "CONF"; lit "SUITE";
   lit "FLOOR"; lit "OFFICE"; lit "BUILDING"; lit "CAPITOL";
   lit "ANCHORAGE"; lit "JUNEAU"; lit "PALMER"; lit "FAIRBANKS";
   lit "TEAMS"].

Definition FORCED_EVENT_PREFIXES : list str :=
  [lit "CHECK IN"; lit "STATEHOOD"; lit "OP-ED"; lit "OP ED";
   lit "WORK ON LIST"; lit "UPDATE"; lit "CHIEF'S CONFERENCE"].

Definition PERSON_HINTS : list str :=
  [lit "GOV)"; lit "LAW)"; lit "DNR)"; lit "DOL)"; lit "DOC)"; lit "DEC)";
   lit "DOT)"; lit "EDU)"; lit "JUD)"; lit "LEG)"].

(** The keyword tuples written inline in the classifiers. *)
Definition NOT_PERSON_KEYWORDS : list str :=
  [lit "STATEHOOD"; lit "DEFENSE"; lit "MEETING"; lit "CONFERENCE";
   lit "CABINET"; lit "BRIEFING"].

Definition MEETING_TYPE_KEYWORDS : list str :=
  [lit "MTG:"; lit "HEARING"; lit "BRIEFING"; lit "INTERVIEW"; lit "DEFENSE";
   lit "REVIEW"; lit "PRESS CONFERENCE"].

(** [[A-Z][a-z]+(?: [A-Z][a-z]+){0,2}(?: [A-Z]\.)?(?: \(.+\))?], the
    pattern given to [re.fullmatch] in both [should_force_new_event] and
    [is_person_segment]. *)
Definition NAME_SHAPE : Re.t :=
  Re.Seq Re.Upper
    (Re.Seq (Re.Plus Re.Lower)
       (Re.Seq (Re.Rep02 (Re.Seq (Re.Lit1 " ")
                            (Re.Seq Re.Upper (Re.Plus Re.Lower))))
          (Re.Seq (Re.Opt (Re.Seq (Re.Lit1 " ")
                             (Re.Seq Re.Upper (Re.Lit1 "."))))
             (Re.Opt (Re.Seq (Re.Lit " (")
                        (Re.Seq (Re.Plus Re.Dot) (Re.Lit1 ")"))))))).

(** [^\d{1,2}[:.]\d{2}] *)
Definition CLOCK_TIME : Re.t :=
  Re.Seq (Re.Rep12 Re.Digit)
    (Re.Seq (Re.Chr (fun c => Char.eqb c ":" || Char.eqb c "."))
       (Re.Rep2 Re.Digit)).

(** [^\d{1,2}\s?(AM|PM)] *)
Definition AM_PM_TIME : Re.t :=
  Re.Seq (Re.Rep12 Re.Digit)
    (Re.Seq (Re.Opt Re.Space) (Re.Alt (Re.Lit "AM") (Re.Lit "PM"))).

(** [[A-Z][a-z]+,\s+[A-Z]] *)
Definition EMBEDDED_NAME : Re.t :=
  Re.Seq Re.Upper
    (Re.Seq (Re.Plus Re.Lower)
       (Re.Seq (Re.Lit1 ",") (Re.Seq (Re.Plus Re.Space) Re.Upper))).

(** [any(k in text for k in table)] and [any(text.startswith(p) ...)] *)
Definition any_in (table : list str) (text : str) : bool :=
  existsb (fun k => contains k text) table.

Definition any_prefix (table : list str) (text : str) : bool :=
  existsb (fun p => startswith p text) table.

(** [text in table] for a set of strings *)
Definition mem (text : str) (table : list str) : bool :=
  existsb (str_eqb text) table.

(** ** Segment splitter and classifiers *)

Definition split_marker (marker : str) : Re.t :=
  Re.Seq (Re.Plus Re.Space) (Re.LitI marker).

Definition split_event_text (event_text : str) : list str :=
  if is_empty event_text then []
  else
    let normalized := replace " PH:" ";PH:" event_text in
    let normalized :=
      fold_left
        (fun text marker =>
           Re.sub (split_marker marker) (fun m => lit "; " ++ strip m) text)
        SPECIAL_SPLIT_MARKERS normalized in
    let parts := map strip (split_char ";" normalized) in
    filter (fun part => negb (is_empty part)
                        && negb (mem (upper part) NOISE_SEGMENTS)) parts.

Definition segment_has_digits (text : str) : bool :=
  existsb Char.isdigit text.

Definition is_location_segment (segment : str) : bool :=
  let cleaned := strip segment in
  if is_empty cleaned then false
  else
    let upper := upper cleaned in
    if contains "TELECONFERENCE" upper then true
    else if contains "CHIEF'S CONFERENCE" upper then false
    else if contains "CONFERENCE" upper
            && negb (contains "ROOM" upper)
            && negb (contains "CENTER" upper)
            && negb (contains "CALL" upper)
            && negb (contains "LINE" upper) then false
    else any_in LOCATION_HINTS upper.

(** [part[0].isalpha()]; the parts it is applied to are never empty. *)
Definition first_isalpha (part : str) : bool :=
  match part with
  | c :: _ => Char.isalpha c
  | [] => false
  end.

Definition is_person_segment (segment : str) : bool :=
  let cleaned := strip segment in
  if is_empty cleaned then false
  else
    let upper := upper cleaned in
    if startswith "PH:" upper then false
    else if contains "TELECONFERENCE" upper then false
    else if is_location_segment segment then false
    else if startswith "MTG:" upper then false
    else if any_in NOT_PERSON_KEYWORDS upper then false
    else if contains "," cleaned && negb (segment_has_digits cleaned)
            && (let parts :=
                  filter (fun part => negb (is_empty part))
                    (map strip (split_char "," cleaned)) in
                negb (is_empty parts) && existsb first_isalpha parts)
    then true
    else if Re.fullmatch NAME_SHAPE cleaned then true
    else any_in PERSON_HINTS upper.

(** [w[0].isalpha() and w[0].isupper()] *)
Definition first_is_capital (w : str) : bool :=
  match w with
  | c :: _ => Char.isalpha c && Char.isupper c
  | [] => false
  end.

(** The title test of the last rule of [should_force_new_event]:
    [1 < len(words) <= 8 and capitalized >= len(words) - 1]. *)
Definition title_like (cleaned : str) : bool :=
  let words := filter (fun w => negb (is_empty w)) (split_ws cleaned) in
  let capitalized := Z.of_nat (length (filter first_is_capital words)) in
  let n := Z.of_nat (length words) in
  (1 <? n)%Z && (n <=? 8)%Z && (n - 1 <=? capitalized)%Z.

Definition should_force_new_event (segment : str) (current_segments : list str)
  : bool :=
  let cleaned := strip segment in
  if is_empty cleaned then false
  else
    let upper := upper cleaned in
    if startswith "PH:" upper then false
    else if contains "TELECONFERENCE" upper then false
    else if is_location_segment segment then false
    else if Re.fullmatch NAME_SHAPE cleaned then true
    else if any_in PERSON_HINTS upper then false
    else if Re.matches CLOCK_TIME cleaned then true
    else if Re.matches AM_PM_TIME upper then true
    else if any_prefix FORCED_EVENT_PREFIXES upper then true
    else if any_in MEETING_TYPE_KEYWORDS upper then
      if negb (any_in LOCATION_HINTS upper) then true
      else if title_like cleaned then
        if negb (any_in LOCATION_HINTS upper) then true else false
      else false
    else false.

(** ** Field formatter *)

Definition clean_meeting_place (text : str) : option str :=
  let cleaned := strip text in
  if startswith "PH:" (upper cleaned)
  then match after_first "PH:" cleaned with
       | Some tail => Some (strip tail)
       | None => None
       end
  else Some cleaned.

(** [re.sub(r'\s+', ' ', value.upper()).strip(' ;')] *)
Definition normalize_for_compare (value : str) : str :=
  strip_space_semi (Re.sub (Re.Plus Re.Space) (fun _ => lit " ") (upper value)).

(** The closure reads [field1] when it is called, so the current value is
    an argument here. *)
Definition should_skip_segment (field1 value : str) : bool :=
  let upper := strip_space_semi (upper value) in
  let field_norm := normalize_for_compare field1 in
  str_eqb upper field_norm || endswith upper field_norm.

Definition keep_nonempty (parts : list str) : list str :=
  filter (fun part => negb (is_empty part)) parts.

(** One iteration of the loop over [rest_raw]; the loop state is
    [(field1, processed_rest)]. *)
Definition absorb_segment (acc : str * list str) (segment : str)
  : str * list str :=
  let '(field1, processed_rest) := acc in
  if is_empty segment then acc
  else if startswith "PH:" (upper segment)
  then (strip (field1 ++ lit " " ++ segment), processed_rest)
  else if should_skip_segment field1 segment then acc
  else
    match Re.search EMBEDDED_NAME segment with
    | Some (S n, _) =>
        let before := strip_space_semi (firstn (S n) segment) in
        let after := strip (skipn (S n) segment) in
        (field1, processed_rest ++ keep_nonempty [before] ++ keep_nonempty [after])
    | _ => (field1, processed_rest ++ [segment])
    end.

(** ['; '.join(part.strip() for part in parts if part.strip())] *)
Definition join_parts (parts : list str) : str :=
  join "; " (keep_nonempty (map strip parts)).

Definition format_event_segments (segments : list str)
  : option (str * str * str) :=
  match segments with
  | [] => Some ([], [], [])
  | first :: others =>
      let field1 := strip first in
      let rest_raw :=
        map strip
          (filter (fun seg => negb (is_empty seg) && negb (is_empty (strip seg)))
                  others) in
      let '(field1, processed_rest) :=
        fold_left absorb_segment rest_raw (field1, []) in
      let processed_rest := keep_nonempty processed_rest in
      let person_parts := filter is_person_segment processed_rest in
      let meeting_parts :=
        filter (fun seg => negb (is_person_segment seg)) processed_rest in
      let field_upper := upper field1 in
      let '(meeting_parts, person_parts) :=
        if contains "PH: INTERVIEW" field_upper then
          if negb (is_empty meeting_parts)
          then ([], meeting_parts ++ person_parts)
          else (meeting_parts, person_parts)
        else if startswith "PH:" field_upper && is_empty meeting_parts
                && negb (is_empty person_parts)
        then (person_parts, [])
        else if startswith "MTG:" field_upper && is_empty meeting_parts
                && negb (is_empty person_parts)
        then (person_parts, [])
        else (meeting_parts, person_parts) in
      match clean_meeting_place (join_parts meeting_parts) with
      | Some meeting_place => Some (field1, meeting_place, join_parts person_parts)
      | None => None
      end
  end.

(** ** Positions, words and lines *)

Class Coord (C : Type) : Type := {
  ltb : C -> C -> bool;     (* [a < b] *)
  leb : C -> C -> bool;     (* [a <= b] *)
  sub : C -> C -> C;        (* [a - b] *)
  of_Z : Z -> C             (* an integer literal *)
}.

#[export] Instance Coord_Z : Coord Z :=
  {| ltb := Z.ltb; leb := Z.leb; sub := Z.sub; of_Z := fun z => z |}.

Record word (C : Type) : Type := Word {
  word_text : str;
  word_x0 : C;
  word_top : C;
  word_fontname : option str
}.
Arguments Word {C}.
Arguments word_text {C}.
Arguments word_x0 {C}.
Arguments word_top {C}.
Arguments word_fontname {C}.

Record line (C : Type) : Type := Line {
  line_text : str;
  line_x0 : C;
  line_words : list (word C)
}.
Arguments Line {C}.
Arguments line_text {C}.
Arguments line_x0 {C}.
Arguments line_words {C}.

(** The segmenter's mutable variables. *)
Record state (C : Type) : Type := State {
  events : list (list str);
  current_segments : list str;
  pending_new_event : bool;
  current_event_x0 : option C;
  pending_location_segments : list str
}.
Arguments State {C}.
Arguments events {C}.
Arguments current_segments {C}.
Arguments pending_new_event {C}.
Arguments current_event_x0 {C}.
Arguments pending_location_segments {C}.

(** What one iteration of the [for] loop ends with. *)
Inductive flow (C : Type) : Type :=
| Continue : state C -> flow C
| Break : flow C.
Arguments Continue {C}.
Arguments Break {C}.

Definition is_bold_word {C} (w : word C) : bool :=
  let font_name :=
    upper (match word_fontname w with
           | Some f => if is_empty f then [] else f
           | None => []
           end) in
  contains "BOLD" font_name || contains "BD" font_name
  || contains "BLACK" font_name.

Section Calendar.

Context {C : Type} `{Coord C}.

(** Library code the module calls. *)
Variable date : Type.
(** [datetime.strptime(text, '%B %d, %Y').date()]; [None] is its
    [ValueError]. *)
Variable strptime : str -> option date.
(** [date.isoformat()] *)
Variable isoformat : date -> str.
(** [cluster_objects(words, 'top', tolerance=LINE_CLUSTER_TOLERANCE)] *)
Variable cluster_objects : list (word C) -> list (list (word C)).

(** *** Line builder *)

(** [sorted(cluster, key=lambda w: w['x0'])]: a stable sort that only
    uses [<] on the keys. *)
Fixpoint insert_by_x0 (w : word C) (sorted : list (word C)) : list (word C) :=
  match sorted with
  | [] => [w]
  | e :: rest =>
      if ltb (word_x0 w) (word_x0 e) then w :: sorted
      else e :: insert_by_x0 w rest
  end.

Definition sorted_by_x0 (cluster : list (word C)) : list (word C) :=
  fold_left (fun acc w => insert_by_x0 w acc) cluster [].

(** [min(values)] keeps the first of the smallest values; [None] stands
    for the [default=None] of an empty sequence. *)
Definition min2 (a b : C) : C := if ltb b a then b else a.

Definition min_x0 (ws : list (word C)) : option C :=
  match ws with
  | [] => None
  | w :: rest => Some (fold_left (fun m v => min2 m (word_x0 v)) rest (word_x0 w))
  end.

Definition join_words (ws : list (word C)) : str :=
  strip (join " " (map word_text ws)).

Definition build_lines (ws : list (word C)) : list (line C) :=
  flat_map
    (fun cluster =>
       let cluster_sorted := sorted_by_x0 cluster in
       let text := join_words cluster_sorted in
       if is_empty text then []
       else match min_x0 cluster_sorted with
            | Some x => [Line text x cluster_sorted]
            | None => []   (* a cluster with text has a word *)
            end)
    (cluster_objects ws).

(** *** Page header locator *)

(** The candidate of one line: the text of the first match of
    [DATE_PATTERN], parsed. *)
Definition date_candidate (l : line C) : option date :=
  match Re.search DATE_PATTERN (line_text l) with
  | Some (_, group1) => strptime group1
  | None => None
  end.

Fixpoint extract_date (lines : list (line C)) : option date :=
  match lines with
  | [] => None
  | l :: rest =>
      match date_candidate l with
      | Some d => Some d
      | None => extract_date rest
      end
  end.

Definition is_day_line (l : line C) : bool :=
  mem (upper (strip (line_text l))) DAY_NAMES_UPPER.

Fixpoint find_day_from (idx : nat) (lines : list (line C)) : option nat :=
  match lines with
  | [] => None
  | l :: rest => if is_day_line l then Some idx else find_day_from (S idx) rest
  end.

Definition find_day_line_index (lines : list (line C)) : option nat :=
  find_day_from 0 lines.

(** *** Event segmenter *)

Definition initial_state : state C :=
  State [] [] true None [].

Definition flush_current (st : state C) : state C :=
  State (if is_empty (current_segments st) then events st
         else events st ++ [current_segments st])
        [] true None (pending_location_segments st).

Definition extend_current (segments : list str) (st : state C) : state C :=
  State (events st) (current_segments st ++ segments)
        (pending_new_event st) (current_event_x0 st)
        (pending_location_segments st).

Definition extend_pending (segments : list str) (st : state C) : state C :=
  State (events st) (current_segments st)
        (pending_new_event st) (current_event_x0 st)
        (pending_location_segments st ++ segments).

Definition set_pending_new_event (b : bool) (st : state C) : state C :=
  State (events st) (current_segments st) b (current_event_x0 st)
        (pending_location_segments st).

Definition set_current_event_x0 (x : option C) (st : state C) : state C :=
  State (events st) (current_segments st) (pending_new_event st) x
        (pending_location_segments st).

Definition set_current_segments (segments : list str) (st : state C)
  : state C :=
  State (events st) segments (pending_new_event st) (current_event_x0 st)
        (pending_location_segments st).

(** [if pending_location_segments: current_segments.extend(...);
    pending_location_segments.clear()] *)
Definition seed_from_pending (st : state C) : state C :=
  if is_empty (pending_location_segments st) then st
  else State (events st)
             (current_segments st ++ pending_location_segments st)
             (pending_new_event st) (current_event_x0 st) [].

(** [if event_x0 is not None and current_event_x0 is None:
    current_event_x0 = event_x0] *)
Definition note_x0 (event_x0 : option C) (st : state C) : state C :=
  match event_x0, current_event_x0 st with
  | Some x, None => set_current_event_x0 (Some x) st
  | _, _ => st
  end.

(** The three tests that end the schedule region. *)
Definition is_region_end (l : line C) : bool :=
  let text := strip (line_text l) in
  mem (upper text) DAY_NAMES_UPPER
  || (match Re.search DATE_PATTERN text with Some _ => true | None => false end)
  || (Re.fullmatch DIGITS_ONLY_PATTERN text
      && ltb (of_Z FOOTER_X_THRESHOLD) (line_x0 l)).

Definition starts_split (seg : str) : bool :=
  let upper_seg := upper seg in
  startswith "PH:" upper_seg || any_prefix SPECIAL_SPLIT_MARKERS upper_seg.

Fixpoint find_split_from (idx : nat) (segments : list str) : option nat :=
  match segments with
  | [] => None
  | seg :: rest =>
      if negb (idx =? 0)%nat && starts_split seg then Some idx
      else find_split_from (S idx) rest
  end.

Definition resplit (event_x0 : option C) (st : state C) : state C :=
  match find_split_from 0 (current_segments st) with
  | Some split_index =>
      let trailing := skipn split_index (current_segments st) in
      let st := set_current_segments
                  (firstn split_index (current_segments st)) st in
      let st := flush_current st in
      let st := extend_current trailing st in
      let st := set_pending_new_event false st in
      match event_x0 with
      | Some x => set_current_event_x0 (Some x) st
      | None => st
      end
  | None => st
  end.

Definition merge_x0 (event_x0 : option C) (st : state C) : state C :=
  match event_x0 with
  | Some x =>
      match current_event_x0 st with
      | None => set_current_event_x0 (Some x) st
      | Some cur => set_current_event_x0 (Some (min2 cur x)) st
      end
  | None => st
  end.

Definition merge_line (st : state C) (l : line C) : flow C :=
  let text := strip (line_text l) in
  if is_empty text then Continue st
  else if is_region_end l then Break
  else
    let time_words :=
      filter (fun w => leb (word_x0 w) (of_Z TIME_COLUMN_X_THRESHOLD))
             (line_words l) in
    let event_words :=
      filter (fun w => ltb (of_Z TIME_COLUMN_X_THRESHOLD) (word_x0 w))
             (line_words l) in
    let event_text := join_words event_words in
    let segments := split_event_text event_text in
    let event_x0 := min_x0 event_words in
    let line_is_bold := existsb is_bold_word (firstn 3 event_words) in
    if negb (is_empty time_words) then
      if negb (is_empty segments) && negb (pending_new_event st)
         && negb (is_empty (current_segments st))
         && forallb is_person_segment segments
      then Continue (note_x0 event_x0 (extend_current segments st))
      else
        let st := seed_from_pending (flush_current st) in
        if negb (is_empty segments)
        then Continue (set_current_event_x0 event_x0
                         (set_pending_new_event false
                            (extend_current segments st)))
        else Continue (set_current_event_x0 None
                         (set_pending_new_event true st))
    else if is_empty segments then Continue st
    else
      let all_person := forallb is_person_segment segments in
      let all_location := forallb is_location_segment segments in
      if all_location && negb (is_empty (current_segments st))
      then Continue (note_x0 event_x0 (extend_current segments st))
      else if all_person && negb (is_empty (current_segments st))
      then Continue (extend_current segments st)
      else if all_location && is_empty (current_segments st)
      then Continue (note_x0 event_x0 (extend_pending segments st))
      else
        let indent_trigger :=
          match event_x0, current_event_x0 st with
          | Some e, Some cur =>
              ltb (of_Z INDENT_NEW_EVENT_THRESHOLD) (sub e cur)
          | _, _ => false
          end in
        let primary_segment := hd [] segments in
        let forced_new :=
          if negb (is_empty (current_segments st)) then
            if indent_trigger && negb all_person then true
            else if negb all_person
                    && should_force_new_event primary_segment
                         (current_segments st) then true
            else if line_is_bold && negb all_person
                    && negb (is_location_segment primary_segment) then true
            else false
          else false in
        let st := if forced_new then seed_from_pending (flush_current st)
                  else st in
        let st := if pending_new_event st && is_empty (current_segments st)
                  then set_pending_new_event false st else st in
        let st := if is_empty (current_segments st) then seed_from_pending st
                  else st in
        let st := extend_current segments st in
        let st := resplit event_x0 st in
        Continue (merge_x0 event_x0 st)
  .

Fixpoint merge_loop (st : state C) (lines : list (line C)) : state C :=
  match lines with
  | [] => st
  | l :: rest =>
      match merge_line st l with
      | Continue st' => merge_loop st' rest
      | Break => st
      end
  end.

(** [events[-1].extend(segments)] on a non-empty list of events. *)
Definition extend_last (evs : list (list str)) (segments : list str)
  : list (list str) :=
  removelast evs ++ [last evs [] ++ segments].

(** The code after the loop. *)
Definition finish (st : state C) : list (list str) :=
  let st :=
    if is_empty (pending_location_segments st) then st
    else if negb (is_empty (current_segments st))
    then State (events st)
               (current_segments st ++ pending_location_segments st)
               (pending_new_event st) (current_event_x0 st) []
    else if negb (is_empty (events st))
    then State (extend_last (events st) (pending_location_segments st))
               (current_segments st) (pending_new_event st)
               (current_event_x0 st) []
    else State (events st) (current_segments st) (pending_new_event st)
               (current_event_x0 st) [] in
  events (flush_current st).

Definition merge_events (lines : list (line C)) (start_index : nat)
  : list (list str) :=
  finish (merge_loop initial_state (skipn start_index lines)).

(** *** Extraction driver *)

Definition record : Type := str * str * str * str.

(** What a generator has produced when it stops: the records yielded so
    far, and whether it returned ([true]) or raised ([false]). *)
Definition yielded : Type := list record * bool.

Fixpoint format_events (day : str) (evs : list (list str)) : yielded :=
  match evs with
  | [] => ([], true)
  | event_segments :: rest =>
      match format_event_segments event_segments with
      | Some (event_name, meeting_place, person) =>
          let '(rows, ok) := format_events day rest in
          ((day, event_name, meeting_place, person) :: rows, ok)
      | None => ([], false)
      end
  end.

(** The body of the loop over [pdf.pages], for one page's words. *)
Definition extract_page (ws : list (word C)) : yielded :=
  if is_empty ws then ([], true)
  else
    let lines := build_lines ws in
    match extract_date lines with
    | None => ([], true)
    | Some date_obj =>
        match find_day_line_index lines with
        | None => ([], true)
        | Some day_idx =>
            let schedule_start := day_idx + 2 in
            let evs := merge_events lines schedule_start in
            if is_empty evs
            then ([(isoformat date_obj, [], [], [])], true)
            else format_events (isoformat date_obj) evs
        end
    end.

(** pdfplumber: a path, an open document and a page; opening the
    document, listing its pages and extracting the words of a page can
    each raise ([None]). *)
Variable path : Type.
Variable pdf : Type.
Variable page : Type.
Variable pdfplumber_open : path -> option pdf.
Variable pdf_pages : pdf -> option (list page).
Variable extract_words : page -> option (list (word C)).

(** The loop over [pdf.pages]. *)
Fixpoint extract_pages (pages : list page) : yielded :=
  match pages with
  | [] => ([], true)
  | pg :: rest =>
      match extract_words pg with
      | None => ([], false)
      | Some ws =>
          let '(rows, ok) := extract_page ws in
          if ok then
            let '(rows', ok') := extract_pages rest in
            (rows ++ rows', ok')
          else (rows, false)
      end
  end.

Definition extract_events (pdf_path : path) : yielded :=
  match pdfplumber_open pdf_path with
  | None => ([], false)
  | Some doc =>
      match pdf_pages doc with
      | None => ([], false)
      | Some pages => extract_pages pages
      end
  end.

End Calendar.

(** ** A concrete instance of the library functions

    Used to evaluate the driver on sample pages.  Dates are
    [(year, month, day)]; [strptime] follows the ['%B %d, %Y'] format on the
    texts [DATE_PATTERN] can produce (English month names, any letter
    case; a day of one or two digits that exists in that month; a year
    from 1 to 9999). *)

Module Sample.

Definition date : Type := Z * Z * Z.

Definition MONTHS : list str :=
  [lit "JANUARY"; lit "FEBRUARY"; lit "MARCH"; lit "APRIL"; lit "MAY";
   lit "JUNE"; lit "JULY"; lit "AUGUST"; lit "SEPTEMBER"; lit "OCTOBER";
   lit "NOVEMBER"; lit "DECEMBER"].

Fixpoint index_of (name : str) (table : list str) (idx : Z) : option Z :=
  match table with
  | [] => None
  | m :: rest => if str_eqb name m then Some idx else index_of name rest (idx + 1)
  end.

Definition digit_value (c : ascii) : Z := Z.of_N (Char.code c) - 48.

Definition number (digits : str) : option Z :=
  if is_empty digits || negb (forallb Char.isdigit digits) then None
  else Some (fold_left (fun acc c => 10 * acc + digit_value c) digits 0)%Z.

Definition is_leap (y : Z) : bool :=
  ((y mod 4 =? 0) && negb (y mod 100 =? 0) || (y mod 400 =? 0))%Z.

Definition days_in_month (y m : Z) : Z :=
  if (m =? 2)%Z then (if is_leap y then 29 else 28)
  else if ((m =? 4) || (m =? 6) || (m =? 9) || (m =? 11))%Z then 30
  else 31.

Definition strptime (text : str) : option date :=
  match split_char " " text with
  | [month; day_comma; year] =>
      match index_of (upper month) MONTHS 1, rev day_comma with
      | Some m, ","%char :: day_rev =>
          match number (rev day_rev), number year with
          | Some d, Some y =>
              if (length year =? 4)%nat && (1 <=? y)%Z
                 && (1 <=? d)%Z && (d <=? days_in_month y m)%Z
              then Some (y, m, d) else None
          | _, _ => None
          end
      | _, _ => None
      end
  | _ => None
  end.

Definition digit_char (z : Z) : ascii := ascii_of_N (Z.to_N (z mod 10 + 48)).

Definition two_digits (z : Z) : str :=
  [digit_char (z / 10); digit_char z].

Definition four_digits (z : Z) : str :=
  [digit_char (z / 1000); digit_char (z / 100);
   digit_char (z / 10); digit_char z].

Definition isoformat (d : date) : str :=
  let '(y, m, dd) := d in
  four_digits y ++ lit "-" ++ two_digits m ++ lit "-" ++ two_digits dd.

(** A stand-in for pdfplumber's clustering: consecutive words whose
    [top] differ by at most [LINE_CLUSTER_TOLERANCE = 3] share a line. *)
Fixpoint cluster_objects (ws : list (word Z)) : list (list (word Z)) :=
  match ws with
  | [] => []
  | w :: rest =>
      match cluster_objects rest with
      | (w' :: cl) :: cls =>
          if (Z.abs (word_top w - word_top w') <=? 3)%Z
          then (w :: w' :: cl) :: cls
          else [w] :: (w' :: cl) :: cls
      | cls => [w] :: cls
      end
  end.

Definition build_lines := build_lines cluster_objects.
Definition extract_date := extract_date (C := Z) date strptime.
Definition extract_page :=
  extract_page date strptime isoformat cluster_objects.

(** A word of the page, in regular or bold type. *)
Definition w (text : String.string) (x top : Z) : word Z :=
  Word (lit text) x top (Some (lit "Helvetica")).
Definition wb (text : String.string) (x top : Z) : word Z :=
  Word (lit text) x top (Some (lit "Helvetica-Bold")).

(** The header every sample page starts with: a date line, the day
    marker and the column titles. *)
Definition header : list (word Z) :=
  [w "September" 72 40; w "15," 130 40; w "2023" 150 40;
   w "Friday" 72 60;
   w "Time" 40 80; w "Event" 100 80].

(** A page with the header only. *)
Definition empty_page : list (word Z) := header.

(** A page with two appointments and a footer page number. *)
Definition busy_page : list (word Z) :=
  header ++
  [w "9:00" 40 100; w "AM" 55 100; w "MTG:" 100 100; w "Budget" 130 100;
   w "Review;" 170 100; w "Room" 215 100; w "400" 245 100;
   w "Smith," 100 120; w "John" 140 120;
   w "2:00" 40 140; w "PM" 55 140; w "PH:" 100 140; w "John" 125 140;
   w "Doe" 150 140;
   w "12" 300 700;
   w "10:00" 40 720; w "AM" 60 720; w "Ignored" 100 720].

(** The lines of [busy_page]: the date, the day marker, the
    column titles, three schedule lines, the footer page number at
    [x0 = 300], and a line under the footer. *)
Definition lines : list (line Z) := build_lines busy_page.

Definition footer : line Z := Line (lit "12") 300%Z [w "12" 300 700].

Definition day_line : line Z := Line (lit "Friday") 72%Z [w "Friday" 72 60].



(** A document store with one file of two pages; a page is given by its
    words, and a page without any word stands for one whose extraction
    raises. *)
Definition open_document (pdf_path : str) : option (list (list (word Z))) :=
  if str_eqb pdf_path "calendar.pdf" then Some [busy_page; empty_page]
  else None.

Definition document_pages (doc : list (list (word Z)))
  : option (list (list (word Z))) := Some doc.

Definition page_words (pg : list (word Z)) : option (list (word Z)) :=
  if is_empty pg then None else Some pg.

Definition extract_events :=
  extract_events date strptime isoformat cluster_objects
    str (list (list (word Z))) (list (word Z))
    open_document document_pages page_words.

(** The first record of [busy_page]. *)
Definition first_row : str * str * str * str :=
  (lit "2023-09-15", lit "MTG: Budget Review", lit "Room 400",
   lit "Smith, John").


(** Lines given directly: two time-stamped entries, a line that only
    names a place, and a line without text. *)
Definition timed_a : line Z :=
  Line (lit "9:00 Staff Meeting") 40%Z
       [w "9:00" 40 100; w "Staff" 100 100; w "Meeting" 140 100].

Definition timed_b : line Z :=
  Line (lit "10:30 Budget HEARING; Capitol") 40%Z
       [w "10:30" 40 120; w "Budget" 100 120; w "HEARING;" 150 120;
        w "Capitol" 210 120].

Definition location_only : line Z :=
  Line (lit "Room 400") 100%Z [w "Room" 100 90; w "400" 130 90].

Definition blank_line : line Z := Line (lit " ") 0%Z [].

(** The third line of [busy_page], as [build_lines] makes it. *)
Definition first_entry : line Z :=
  Line (lit "9:00 AM MTG: Budget Review; Room 400") 40%Z
       [w "9:00" 40 100; w "AM" 55 100; w "MTG:" 100 100; w "Budget" 130 100;
        w "Review;" 170 100; w "Room" 215 100; w "400" 245 100].

End Sample.

(** ** Predicates used in the statements *)

(** A segment reaches the last rule of [should_force_new_event]: none of
    the earlier tests returned, and a meeting-type keyword occurs. *)
Definition reaches_keyword_rule (segment : str) : bool :=
  let cleaned := strip segment in
  let upper := upper cleaned in
  negb (is_empty cleaned)
  && negb (startswith "PH:" upper)
  && negb (contains "TELECONFERENCE" upper)
  && negb (is_location_segment segment)
  && negb (Re.fullmatch NAME_SHAPE cleaned)
  && negb (any_in PERSON_HINTS upper)
  && negb (Re.matches CLOCK_TIME cleaned)
  && negb (Re.matches AM_PM_TIME upper)
  && negb (any_prefix FORCED_EVENT_PREFIXES upper)
  && any_in MEETING_TYPE_KEYWORDS upper.

(** [s] has a character outside the set [p]: stripping [p] leaves
    something. *)
Definition keeps (p : ascii -> bool) (s : str) : bool :=
  existsb (fun c => negb (p c)) s.

(** A keyword that neither starts nor ends with a blank: whether it occurs
    in a text does not depend on the blanks around the text. *)
Definition edges_nonblank (k : str) : bool :=
  match k with
  | [] => false
  | a :: _ => negb (Char.isspace a) && negb (Char.isspace (last k a))
  end.

(** A text with a character that is not blank; its [strip()] is not
    empty. *)
Definition has_nonblank (s : str) : bool := keeps Char.isspace s.

Definition segment_ok (seg : str) : Prop := has_nonblank seg = true.

Definition event_ok (ev : list str) : Prop :=
  ev <> [] /\ Forall segment_ok ev.

Definition state_ok {C} (st : state C) : Prop :=
  Forall event_ok (events st)
  /\ Forall segment_ok (current_segments st)
  /\ Forall segment_ok (pending_location_segments st).

Definition row_date (r : str * str * str * str) : str :=
  let '(d, _, _, _) := r in d.

Definition row_event_name (r : str * str * str * str) : str :=
  let '(_, n, _, _) := r in n.

(** The redundancy test as [should_skip_segment] applies it to the second
    segment of an event: the trimmed segment in upper case, without the
    spaces and semicolons around it and with its inner whitespace as it is,
    equals the normalized first segment or ends it. *)
Definition duplicates (first segment : str) : Prop :=
  let candidate := strip_space_semi (upper (strip segment)) in
  let field_norm := normalize_for_compare first in
  candidate = field_norm \/ endswith candidate field_norm = true.

(** Whitespace collapsing, written directly: every maximal run of blanks
    becomes one space.  [in_run] tells that the previous character was a
    blank.  [Re.sub (Re.Plus Re.Space)] is shown below to compute it. *)
Fixpoint squeeze (in_run : bool) (s : str) : str :=
  match s with
  | [] => []
  | c :: s' =>
      if Char.isspace c
      then (if in_run then squeeze true s' else " "%char :: squeeze true s')
      else c :: squeeze false s'
  end.

(** The number of blanks a text starts with. *)
Definition run_length (s : str) : nat :=
  length s - length (lstrip_by Char.isspace s).

(** The texts a pattern denotes, independently of any matching order. *)
Fixpoint lang (r : Re.t) (w : str) : Prop :=
  match r with
  | Re.Eps => w = []
  | Re.Chr p => exists c, w = [c] /\ p c = true
  | Re.Seq a b => exists w1 w2, w = w1 ++ w2 /\ lang a w1 /\ lang b w2
  | Re.Alt a b => lang a w \/ lang b w
  | Re.Star a => exists ws, w = concat ws /\ Forall (lang a) ws
  end.

(** The end of the schedule region in the words of the specification,
    on the text of the line as it is: the text in upper case is a day
    name, or the text holds a long-form date, or the text is all digits
    and the line starts right of 200. *)
Definition boundary_as_specified {C} `{Coord C} (l : line C) : bool :=
  let text := line_text l in
  mem (upper text) DAY_NAMES_UPPER
  || (match Re.search DATE_PATTERN text with Some _ => true | None => false end)
  || (Re.fullmatch DIGITS_ONLY_PATTERN text
      && ltb (of_Z FOOTER_X_THRESHOLD) (line_x0 l)).

(** ** Predicates used by the further properties *)

(** A text without blanks around it. *)
Definition trimmed (s : str) : Prop := strip s = s.

Section Regions.

Context {C : Type} `{Coord C}.

(** The two columns of a line, as [merge_events] splits them. *)
Definition time_words_of (l : line C) : list (word C) :=
  filter (fun w => leb (word_x0 w) (of_Z TIME_COLUMN_X_THRESHOLD))
         (line_words l).

Definition event_words_of (l : line C) : list (word C) :=
  filter (fun w => ltb (of_Z TIME_COLUMN_X_THRESHOLD) (word_x0 w))
         (line_words l).

(** The segments [merge_events] computes for a line. *)
Definition line_segments (l : line C) : list str :=
  split_event_text (join_words (event_words_of l)).

(** The lines the loop of [merge_events] works on: those with a text,
    up to the first one that ends the region. *)
Fixpoint scanned (lines : list (line C)) : list (line C) :=
  match lines with
  | [] => []
  | l :: rest =>
      if is_empty (strip (line_text l)) then scanned rest
      else if is_region_end l then []
      else l :: scanned rest
  end.

(** All the segments a state holds. *)
Definition content (st : state C) : list str :=
  concat (events st) ++ current_segments st ++ pending_location_segments st.

(** An event has been opened or finalized. *)
Definition started (st : state C) : bool :=
  negb (is_empty (events st)) || negb (is_empty (current_segments st)).

(** A line with a time stamp and event text that is not a list of
    persons. *)
Definition timed_entry (l : line C) : bool :=
  negb (is_empty (strip (line_text l)))
  && negb (is_region_end l)
  && negb (is_empty (time_words_of l))
  && negb (is_empty (line_segments l))
  && negb (forallb is_person_segment (line_segments l)).

(** A line without a time stamp whose event text is made of location
    segments only. *)
Definition location_line (l : line C) : bool :=
  negb (is_empty (strip (line_text l)))
  && negb (is_region_end l)
  && is_empty (time_words_of l)
  && negb (is_empty (line_segments l))
  && forallb is_location_segment (line_segments l).

(** A line without text, or with no word in the time column and no
    segment in the event column. *)
Definition ignorable (l : line C) : bool :=
  is_empty (strip (line_text l))
  || (negb (is_region_end l) && is_empty (time_words_of l)
      && is_empty (line_segments l)).

(** No word is left of its predecessor. *)
Fixpoint ordered_by_x0 (ws : list (word C)) : bool :=
  match ws with
  | a :: (b :: _) as rest =>
      negb (ltb (word_x0 b) (word_x0 a)) && ordered_by_x0 rest
  | _ => true
  end.

End Regions.

(** A piece of text that [clean_meeting_place] takes as it is: trimmed,
    it does not start with PH: in any letter case. *)
Definition no_phone_prefix (piece : str) : Prop :=
  startswith "PH:" (upper (strip piece)) = false.

(** A segment that, trimmed, does not start with a semicolon. *)
Definition no_leading_semicolon (seg : str) : Prop :=
  startswith ";" (strip seg) = false.

(** A text whose blanks are single spaces, none next to another. *)
Fixpoint squeezed (s : str) : bool :=
  match s with
  | [] => true
  | c :: s' =>
      (if Char.isspace c
       then Char.eqb c " "
            && match s' with
               | [] => true
               | d :: _ => negb (Char.isspace d)
               end
       else true)
      && squeezed s'
  end.

(** The text is empty or starts with a character that is not blank. *)
Definition starts_nonblank (s : str) : bool :=
  match s with
  | [] => true
  | c :: _ => negb (Char.isspace c)
  end.

(** * Properties *)

(** ** Strings *)

Lemma str_eqb_eq (a b : str) : str_eqb a b = true <-> a = b.
Proof.
  revert b; induction a as [|x a IH]; intros [|y b]; simpl;
    try (split; [discriminate | congruence]); try tauto.
  unfold Char.eqb. rewrite andb_true_iff, Ascii.eqb_eq, IH.
  split; [intros [-> ->]; reflexivity | intros E; injection E; auto].
Qed.

Lemma mem_In (text : str) (table : list str) :
  mem text table = true <-> In text table.
Proof.
  unfold mem. rewrite existsb_exists. split.
  - intros (x & Hin & E). apply str_eqb_eq in E. subst; assumption.
  - intros Hin. exists text. split; [assumption | now apply str_eqb_eq].
Qed.

(** ** Trimming and blank texts *)

Section Strip.

Variable p : ascii -> bool.

Lemma lstrip_by_keeps (s : str) : keeps p (lstrip_by p s) = keeps p s.
Proof.
  induction s as [|c s IH]; [reflexivity|].
  cbn [lstrip_by]. destruct (p c) eqn:Hc; [|reflexivity].
  rewrite IH. unfold keeps. cbn [existsb]. rewrite Hc. reflexivity.
Qed.

Lemma rstrip_by_nil (s : str) : rstrip_by p s = [] <-> keeps p s = false.
Proof.
  induction s as [|c s IH]; [split; reflexivity|].
  unfold keeps in *. cbn [rstrip_by existsb].
  destruct (rstrip_by p s) as [|x r].
  - rewrite (proj1 IH eq_refl), orb_false_r.
    destruct (p c); split; auto; discriminate.
  - split; [discriminate|]. intros Hnone.
    apply orb_false_iff in Hnone as [_ Hs].
    apply IH in Hs. discriminate.
Qed.

Lemma rstrip_by_keeps (s : str) : keeps p (rstrip_by p s) = keeps p s.
Proof.
  induction s as [|c s IH]; [reflexivity|].
  cbn [rstrip_by]. destruct (rstrip_by p s) as [|x r] eqn:Hr.
  - apply rstrip_by_nil in Hr. unfold keeps in *.
    destruct (p c) eqn:Hc; cbn [existsb]; rewrite Hr, Hc; reflexivity.
  - unfold keeps in *. cbn [existsb] in *. rewrite IH. reflexivity.
Qed.

Lemma strip_by_keeps (s : str) : keeps p (strip_by p s) = keeps p s.
Proof.
  unfold strip_by. rewrite rstrip_by_keeps. apply lstrip_by_keeps.
Qed.

Lemma strip_by_nil (s : str) : strip_by p s = [] <-> keeps p s = false.
Proof.
  unfold strip_by. rewrite rstrip_by_nil. rewrite lstrip_by_keeps.
  reflexivity.
Qed.

End Strip.

Lemma has_nonblank_strip (s : str) : has_nonblank (strip s) = has_nonblank s.
Proof.
  apply strip_by_keeps.
Qed.

Lemma strip_nonempty (s : str) : strip s <> [] <-> has_nonblank s = true.
Proof.
  unfold strip. rewrite strip_by_nil. fold (has_nonblank s).
  destruct (has_nonblank s); split; congruence.
Qed.

Lemma has_nonblank_app_l (a b : str) :
  has_nonblank a = true -> has_nonblank (a ++ b) = true.
Proof.
  unfold has_nonblank, keeps. rewrite existsb_app. intros ->. reflexivity.
Qed.

Lemma has_nonblank_nonempty (s : str) : has_nonblank s = true -> s <> [].
Proof.
  destruct s; [discriminate | discriminate].
Qed.

Lemma is_empty_false {A} (l : list A) : is_empty l = false <-> l <> [].
Proof.
  destruct l; cbn; split; congruence.
Qed.

Lemma split_event_text_ok (event_text : str) :
  Forall segment_ok (split_event_text event_text).
Proof.
  unfold split_event_text.
  destruct (is_empty event_text); [constructor|]. cbv zeta.
  apply Forall_forall. intros seg Hin.
  apply filter_In in Hin as [Hin Hkeep].
  apply andb_true_iff in Hkeep as [Hne _].
  apply negb_true_iff, is_empty_false in Hne.
  apply in_map_iff in Hin as (part & <- & _).
  unfold segment_ok. rewrite has_nonblank_strip.
  apply strip_nonempty. assumption.
Qed.

(** ** Segment classifiers *)

(** C1: no segment is classified both as a location and as a person:
    [is_location_segment] and [is_person_segment] are never both true. *)
Theorem location_person_exclusive (segment : str) :
  is_location_segment segment && is_person_segment segment = false.
Proof.
  unfold is_person_segment.
  destruct (is_location_segment segment) eqn:Hloc; [|reflexivity].
  cbv zeta.
  destruct (is_empty (strip segment)); [reflexivity|].
  destruct (startswith _ _); [reflexivity|].
  destruct (contains _ _); reflexivity.
Qed.

(** C10: [should_force_new_event] never reads its second argument. *)
Theorem should_force_new_event_ignores_current
  (segment : str) (l1 l2 : list str) :
  should_force_new_event segment l1 = should_force_new_event segment l2.
Proof.
  reflexivity.
Qed.

(** What the last rule of [should_force_new_event] computes: the title
    test is reached only when a location hint occurs and is followed by
    the same hint test, so its branch never returns and the answer is
    decided by the hint test alone. *)
Lemma keyword_rule_decides_by_location_hint
  (segment : str) (current_segments : list str) :
  reaches_keyword_rule segment = true ->
  should_force_new_event segment current_segments
  = negb (any_in LOCATION_HINTS (upper (strip segment))).
Proof.
  unfold reaches_keyword_rule, should_force_new_event. cbv zeta.
  intros Hreach.
  repeat (apply andb_true_iff in Hreach; destruct Hreach as [Hreach ?]).
  repeat match goal with
         | Hn : negb _ = true |- _ => apply negb_true_iff in Hn; rewrite Hn
         end.
  rewrite H.
  destruct (any_in LOCATION_HINTS _); cbn [negb];
    [destruct (title_like _)|]; reflexivity.
Qed.

(** C2: the code misses the title case of the meeting-type keyword rule.
    'PRESS CONFERENCE Today' reaches the rule, holds a location hint
    (CONF) and is a three-word capitalized title, for which the rule is
    to answer true; the function answers false. *)
Lemma keyword_rule_title_with_hint_is_not_forced :
  let segment := lit "PRESS CONFERENCE Today" in
  reaches_keyword_rule segment = true
  /\ any_in LOCATION_HINTS (upper (strip segment)) = true
  /\ title_like (strip segment) = true
  /\ should_force_new_event segment [] = false.
Proof.
  vm_compute. repeat split; reflexivity.
Qed.

Lemma startswith_split (k s : str) :
  startswith k s = true <-> exists q, s = k ++ q.
Proof.
  revert s. induction k as [|a k IH]; intros s; cbn [startswith app].
  - split; [intros _; exists s; reflexivity | reflexivity].
  - destruct s as [|c s]; [split; [discriminate | intros (q & Hq); discriminate]|].
    unfold Char.eqb. rewrite andb_true_iff, Ascii.eqb_eq, IH. split.
    + intros [-> (q & ->)]. exists q. reflexivity.
    + intros (q & [= -> ->]). split; [reflexivity | exists q; reflexivity].
Qed.

Lemma contains_split (k s : str) :
  contains k s = true <-> exists p q, s = p ++ k ++ q.
Proof.
  induction s as [|c s IH]; cbn [contains].
  - rewrite orb_false_r, startswith_split. split.
    + intros (q & Hq). exists [], q. exact Hq.
    + intros ([|x p] & q & Hq); [exists q; exact Hq | discriminate].
  - rewrite orb_true_iff, startswith_split, IH. split.
    + intros [(q & Hq) | (p & q & ->)];
        [exists [], q; exact Hq | exists (c :: p), q; reflexivity].
    + intros ([|x p] & q & Hq); [left; exists q; exact Hq|].
      right. injection Hq as _ ->. exists p, q. reflexivity.
Qed.

Lemma contains_infix (pre mid post s : str) :
  contains (pre ++ mid ++ post) s = true -> contains mid s = true.
Proof.
  rewrite !contains_split. intros (p & q & ->).
  exists (p ++ pre), (post ++ q). rewrite <- !app_assoc. reflexivity.
Qed.

(** The keyword PRESS CONFERENCE holds the location hint CONF, so a
    segment that reaches the last rule because of it is never forced. *)
Lemma press_conference_never_forces
  (segment : str) (current_segments : list str) :
  reaches_keyword_rule segment = true ->
  contains "PRESS CONFERENCE" (upper (strip segment)) = true ->
  should_force_new_event segment current_segments = false.
Proof.
  intros Hreach Hkeyword.
  rewrite (keyword_rule_decides_by_location_hint _ _ Hreach).
  apply negb_false_iff. unfold any_in. apply existsb_exists.
  exists (lit "CONF"). split; [vm_compute; tauto|].
  apply (contains_infix (lit "PRESS ") (lit "CONF") (lit "ERENCE")).
  exact Hkeyword.
Qed.

(** ** Whitespace normalization *)

Lemma isspace_upper (c : ascii) : Char.isspace (Char.upper c) = Char.isspace c.
Proof.
  destruct c as [[] [] [] [] [] [] [] []]; reflexivity.
Qed.

Lemma lstrip_upper (s : str) :
  lstrip_by Char.isspace (upper s) = upper (lstrip_by Char.isspace s).
Proof.
  induction s as [|c s IH]; [reflexivity|].
  unfold upper in *. cbn [map lstrip_by]. rewrite isspace_upper.
  destruct (Char.isspace c); [apply IH | reflexivity].
Qed.

Lemma rstrip_upper (s : str) :
  rstrip_by Char.isspace (upper s) = upper (rstrip_by Char.isspace s).
Proof.
  induction s as [|c s IH]; [reflexivity|].
  unfold upper in *. cbn [map rstrip_by]. rewrite IH, isspace_upper.
  destruct (rstrip_by Char.isspace s); cbn [map];
    [destruct (Char.isspace c)|]; reflexivity.
Qed.

Lemma upper_strip (s : str) : upper (strip s) = strip (upper s).
Proof.
  unfold strip, strip_by. rewrite lstrip_upper, rstrip_upper. reflexivity.
Qed.

Lemma lstrip_by_length (p : ascii -> bool) (s : str) :
  length (lstrip_by p s) <= length s.
Proof.
  induction s as [|c s IH]; cbn [lstrip_by]; [lia|].
  destruct (p c); cbn [length]; lia.
Qed.

Lemma star_space (fuel : nat) :
  forall s, length s <= fuel ->
            Re.star_loop (Re.run Re.Space) Re.anywhere fuel s
            = Some (lstrip_by Char.isspace s).
Proof.
  induction fuel as [|fuel IH]; intros s Hlen.
  - destruct s; [reflexivity | cbn in Hlen; lia].
  - cbn [Re.star_loop]. destruct s as [|c s']; [reflexivity|].
    cbn [Re.run Re.Space lstrip_by length] in *.
    destruct (Char.isspace c); [|reflexivity].
    replace (length s' <? S (length s')) with true
      by (symmetry; apply Nat.ltb_lt; lia).
    rewrite IH by lia. reflexivity.
Qed.

Lemma match_len_spaces (c : ascii) (s : str) :
  Re.match_len (Re.Plus Re.Space) (c :: s)
  = if Char.isspace c then Some (S (run_length s)) else None.
Proof.
  unfold Re.match_len, Re.Plus. cbn [Re.run Re.Space].
  destruct (Char.isspace c); [|reflexivity].
  rewrite star_space by lia. unfold run_length. cbn [length].
  pose proof (lstrip_by_length Char.isspace s). f_equal. lia.
Qed.

Lemma run_length_cons (c : ascii) (s : str) :
  run_length (c :: s) = if Char.isspace c then S (run_length s) else 0.
Proof.
  unfold run_length. cbn [lstrip_by length].
  pose proof (lstrip_by_length Char.isspace s).
  destruct (Char.isspace c); cbn [length]; lia.
Qed.

(** [re.sub(r'\s+', ' ', s)] is [squeeze]. *)
Lemma sub_spaces_squeeze (s : str) :
  Re.sub_aux (Re.Plus Re.Space) (fun _ => lit " ") 0 s = squeeze false s
  /\ Re.sub_aux (Re.Plus Re.Space) (fun _ => lit " ") (run_length s) s
     = squeeze true s.
Proof.
  induction s as [|c s [IH0 IHrun]]; [split; reflexivity|].
  assert (Hstart :
            Re.sub_aux (Re.Plus Re.Space) (fun _ => lit " ") 0 (c :: s)
            = squeeze false (c :: s)).
  { cbn [Re.sub_aux squeeze]. rewrite match_len_spaces.
    destruct (Char.isspace c).
    - rewrite IHrun. reflexivity.
    - rewrite IH0. reflexivity. }
  split; [exact Hstart|].
  rewrite run_length_cons. destruct (Char.isspace c) eqn:Hc.
  - cbn [Re.sub_aux squeeze]. rewrite Hc. exact IHrun.
  - rewrite Hstart. cbn [squeeze]. rewrite Hc. reflexivity.
Qed.

Lemma normalize_for_compare_squeeze (value : str) :
  normalize_for_compare value = strip_space_semi (squeeze false (upper value)).
Proof.
  unfold normalize_for_compare, Re.sub.
  rewrite (proj1 (sub_spaces_squeeze (upper value))). reflexivity.
Qed.

Lemma rstrip_by_app (p : ascii -> bool) (pre y y' : str) :
  rstrip_by p y = rstrip_by p y' ->
  rstrip_by p (pre ++ y) = rstrip_by p (pre ++ y').
Proof.
  intros Hy. induction pre as [|c pre IH]; [exact Hy|].
  cbn [app rstrip_by]. rewrite IH. reflexivity.
Qed.

Lemma strip_by_comm (p : ascii -> bool) (s : str) :
  rstrip_by p (lstrip_by p s) = lstrip_by p (rstrip_by p s).
Proof.
  induction s as [|c s IH]; [reflexivity|].
  cbn [lstrip_by rstrip_by]. destruct (p c) eqn:Hc.
  - rewrite IH. destruct (rstrip_by p s); [reflexivity|].
    cbn [lstrip_by]. rewrite Hc. reflexivity.
  - cbn [rstrip_by]. destruct (rstrip_by p s);
      cbn [lstrip_by]; rewrite Hc; reflexivity.
Qed.

Lemma squeeze_rstrip (s : str) :
  forall in_run,
    rstrip_by in_space_semi (squeeze in_run s)
    = rstrip_by in_space_semi (squeeze in_run (rstrip_by Char.isspace s)).
Proof.
  induction s as [|c s IH]; intros in_run; [reflexivity|].
  cbn [rstrip_by]. destruct (rstrip_by Char.isspace s) as [|x r] eqn:Hr.
  - destruct (Char.isspace c) eqn:Hc; cbn [squeeze]; rewrite Hc.
    + destruct in_run.
      * rewrite IH. reflexivity.
      * cbn [rstrip_by]. rewrite IH. reflexivity.
    + apply (rstrip_by_app in_space_semi [c]). apply IH.
  - cbn [squeeze]. destruct (Char.isspace c).
    + destruct in_run; [apply IH|].
      apply (rstrip_by_app in_space_semi [" "%char]). apply IH.
    + apply (rstrip_by_app in_space_semi [c]). apply IH.
Qed.

Lemma squeeze_lstrip (s : str) :
  lstrip_by in_space_semi (squeeze true s)
  = lstrip_by in_space_semi (squeeze false (lstrip_by Char.isspace s))
  /\ lstrip_by in_space_semi (squeeze false s)
     = lstrip_by in_space_semi (squeeze false (lstrip_by Char.isspace s)).
Proof.
  induction s as [|c s [IHrun IH0]]; [split; reflexivity|].
  cbn [squeeze lstrip_by]. destruct (Char.isspace c) eqn:Hc.
  - split; [exact IHrun|]. cbn [lstrip_by]. exact IHrun.
  - cbn [squeeze]. rewrite Hc. split; reflexivity.
Qed.

(** The normalization does not see the blanks around a text. *)
Lemma normalize_for_compare_strip (value : str) :
  normalize_for_compare (strip value) = normalize_for_compare value.
Proof.
  rewrite !normalize_for_compare_squeeze, upper_strip.
  unfold strip_space_semi, strip, strip_by.
  rewrite !(strip_by_comm in_space_semi).
  rewrite <- squeeze_rstrip.
  rewrite <- !(strip_by_comm in_space_semi).
  rewrite <- (proj2 (squeeze_lstrip (upper value))). reflexivity.
Qed.

(** ** Keywords in a trimmed text *)

Lemma eqb_blank (a c : ascii) :
  Char.isspace a = false -> Char.isspace c = true -> Char.eqb a c = false.
Proof.
  intros Ha Hc. unfold Char.eqb. apply Ascii.eqb_neq. congruence.
Qed.

Lemma last_default {A} (x : A) (l : list A) (d d' : A) :
  last (x :: l) d = last (x :: l) d'.
Proof.
  revert x. induction l as [|y l IH]; intros x; [reflexivity|].
  change (last (y :: l) d = last (y :: l) d'). apply IH.
Qed.

Lemma startswith_rstrip (x : str) :
  forall a k,
    Char.isspace (last (a :: k) a) = false ->
    startswith (a :: k) (rstrip_by Char.isspace x) = startswith (a :: k) x.
Proof.
  induction x as [|c x IH]; intros a k Hlast; [reflexivity|].
  cbn [rstrip_by startswith].
  destruct k as [|b k].
  - cbn [last] in Hlast.
    destruct (rstrip_by Char.isspace x); cbn [startswith];
      [|destruct x; rewrite ?andb_true_r; reflexivity].
    destruct (Char.isspace c) eqn:Hc; cbn [startswith].
    + rewrite (eqb_blank a c) by assumption. reflexivity.
    + destruct x; reflexivity.
  - assert (Hlast' : Char.isspace (last (b :: k) b) = false).
    { rewrite (last_default b k b a). exact Hlast. }
    specialize (IH b k Hlast').
    destruct (rstrip_by Char.isspace x) as [|y r].
    + change (startswith (b :: k) []) with false in IH.
      rewrite <- IH, andb_false_r.
      destruct (Char.isspace c); cbn [startswith];
        rewrite ?andb_false_r; reflexivity.
    + rewrite <- IH. reflexivity.
Qed.

Lemma contains_rstrip (k x : str) :
  edges_nonblank k = true ->
  contains k (rstrip_by Char.isspace x) = contains k x.
Proof.
  destruct k as [|a k]; [discriminate|]. cbn [edges_nonblank].
  intros Hedges. apply andb_true_iff in Hedges as [_ Hlast].
  apply negb_true_iff in Hlast.
  induction x as [|c x IH]; [reflexivity|].
  cbn [contains]. rewrite <- (startswith_rstrip (c :: x) a k Hlast).
  cbn [rstrip_by]. destruct (rstrip_by Char.isspace x) as [|y r].
  - rewrite <- IH. cbn [contains startswith]. rewrite orb_false_r.
    destruct (Char.isspace c); cbn [contains startswith];
      rewrite ?orb_false_r; reflexivity.
  - cbn [contains]. rewrite <- IH. reflexivity.
Qed.

Lemma contains_lstrip (k x : str) :
  edges_nonblank k = true ->
  contains k (lstrip_by Char.isspace x) = contains k x.
Proof.
  destruct k as [|a k]; [discriminate|]. cbn [edges_nonblank].
  intros Hedges. apply andb_true_iff in Hedges as [Hfirst _].
  apply negb_true_iff in Hfirst.
  induction x as [|c x IH]; [reflexivity|].
  cbn [lstrip_by]. destruct (Char.isspace c) eqn:Hc; [|reflexivity].
  rewrite IH. cbn [contains startswith].
  rewrite (eqb_blank a c) by assumption. reflexivity.
Qed.

Lemma contains_strip (k x : str) :
  edges_nonblank k = true -> contains k (strip x) = contains k x.
Proof.
  intros Hedges. unfold strip, strip_by.
  rewrite contains_rstrip, contains_lstrip by assumption. reflexivity.
Qed.

Lemma any_in_strip (table : list str) (x : str) :
  forallb edges_nonblank table = true ->
  any_in table (strip x) = any_in table x.
Proof.
  unfold any_in. induction table as [|k table IH]; [reflexivity|].
  cbn [forallb existsb]. intros Hedges.
  apply andb_true_iff in Hedges as [Hk Htable].
  rewrite contains_strip, IH by assumption. reflexivity.
Qed.

(** C4: the decision list of [is_location_segment] on the uppercased
    text of the segment: TELECONFERENCE gives true; else CHIEF'S
    CONFERENCE gives false; else CONFERENCE without ROOM, CENTER, CALL and
    LINE gives false; else the answer is whether a location hint occurs. *)
Theorem is_location_segment_rules (segment : str) :
  let text := upper segment in
  let unqualified_conference :=
    contains "CONFERENCE" text && negb (contains "ROOM" text)
    && negb (contains "CENTER" text) && negb (contains "CALL" text)
    && negb (contains "LINE" text) in
  (contains "TELECONFERENCE" text = true ->
   is_location_segment segment = true)
  /\ (contains "TELECONFERENCE" text = false ->
      contains "CHIEF'S CONFERENCE" text = true ->
      is_location_segment segment = false)
  /\ (contains "TELECONFERENCE" text = false ->
      contains "CHIEF'S CONFERENCE" text = false ->
      unqualified_conference = true ->
      is_location_segment segment = false)
  /\ (contains "TELECONFERENCE" text = false ->
      contains "CHIEF'S CONFERENCE" text = false ->
      unqualified_conference = false ->
      is_location_segment segment = any_in LOCATION_HINTS text).
Proof.
  cbv zeta.
  rewrite <- (any_in_strip LOCATION_HINTS (upper segment)) by reflexivity.
  rewrite <- !(contains_strip _ (upper segment)) by reflexivity.
  rewrite <- upper_strip.
  unfold is_location_segment. cbv zeta.
  destruct (strip segment) as [|c cs] eqn:Hclean.
  - vm_compute. repeat split; intros; congruence.
  - cbn [is_empty].
    set (text := upper (c :: cs)).
    repeat split; intros.
    + rewrite H. reflexivity.
    + rewrite H, H0. reflexivity.
    + rewrite H, H0, H1. reflexivity.
    + rewrite H, H0, H1. reflexivity.
Qed.

(** ** Field formatter: the event name *)

Lemma absorb_segment_name (acc : str * list str) (segment : str) :
  has_nonblank (fst acc) = true ->
  has_nonblank (fst (absorb_segment acc segment)) = true.
Proof.
  destruct acc as [field1 processed]. unfold absorb_segment.
  cbn [fst]. intros Hname.
  destruct (is_empty segment); [assumption|].
  destruct (startswith _ _).
  - cbn [fst]. rewrite has_nonblank_strip.
    apply has_nonblank_app_l. assumption.
  - destruct (should_skip_segment field1 segment); [assumption|].
    destruct (Re.search EMBEDDED_NAME segment) as [[[|n] g]|]; assumption.
Qed.

Lemma fold_absorb_name (segments : list str) :
  forall acc,
    has_nonblank (fst acc) = true ->
    has_nonblank (fst (fold_left absorb_segment segments acc)) = true.
Proof.
  induction segments as [|seg rest IH]; intros acc Hacc; cbn [fold_left].
  - assumption.
  - apply IH. apply absorb_segment_name. assumption.
Qed.

Lemma format_event_segments_name
  (ev : list str) (event_name meeting_place person : str) :
  event_ok ev ->
  format_event_segments ev = Some (event_name, meeting_place, person) ->
  event_name <> [].
Proof.
  intros [Hne Hsegs]. destruct ev as [|first others]; [congruence|].
  unfold format_event_segments.
  pose proof (fold_absorb_name
                (map strip
                   (filter (fun seg => negb (is_empty seg)
                                       && negb (is_empty (strip seg)))
                           others))
                (strip first, [])) as Hname.
  destruct (fold_left absorb_segment _ _) as [field1 processed].
  cbn [fst] in Hname. cbv zeta.
  match goal with
  | |- (let '(_, _) := ?choice in _) = _ -> _ =>
      destruct choice as [meeting_parts person_parts]
  end.
  destruct (clean_meeting_place _); [|discriminate].
  intros [= <- _ _]. apply has_nonblank_nonempty, Hname.
  rewrite has_nonblank_strip.
  inversion Hsegs; assumption.
Qed.

(** ** Field formatter: redundant segments *)

(** C8, as the code has it: in an event [[s0, s]] whose second segment
    does not start with PH: and, trimmed, uppercased and freed of the
    spaces and semicolons around it, equals the normalization of [s0] or
    ends it, the second segment is dropped: the event formats as [[s0]]
    alone. *)
Theorem redundant_segment_dropped (s0 s : str) :
  startswith "PH:" (upper (strip s)) = false ->
  duplicates s0 s ->
  format_event_segments [s0; s] = format_event_segments [s0].
Proof.
  intros Hphone Hdup. unfold format_event_segments. cbn [filter].
  destruct (negb (is_empty s) && negb (is_empty (strip s))) eqn:Hkeep;
    [|reflexivity].
  apply andb_true_iff in Hkeep as [_ Hfull].
  apply negb_true_iff in Hfull.
  cbn [map fold_left].
  replace (absorb_segment (strip s0, []) (strip s)) with (strip s0, @nil str);
    [reflexivity|].
  unfold absorb_segment. rewrite Hfull, Hphone.
  unfold should_skip_segment. cbv zeta.
  rewrite normalize_for_compare_strip.
  destruct Hdup as [Heq | Hend].
  - apply str_eqb_eq in Heq. rewrite Heq. reflexivity.
  - rewrite Hend, orb_true_r. reflexivity.
Qed.

(** C8, at two events where the claim as stated fails.  In both the
    second segment has the normalization of the first.  A second segment
    that starts with PH: is appended to the event name before the
    redundancy test is reached; a second segment with a double space
    inside is compared as it is and kept as a meeting place. *)
Lemma duplicate_segment_not_always_dropped :
  (normalize_for_compare "PH: A" = normalize_for_compare "PH: A"
   /\ format_event_segments [lit "PH: A"; lit "PH: A"]
      = Some (lit "PH: A PH: A", [], [])
   /\ format_event_segments [lit "PH: A"] = Some (lit "PH: A", [], []))
  /\ (normalize_for_compare "A  B" = normalize_for_compare "A B"
      /\ format_event_segments [lit "A B"; lit "A  B"]
         = Some (lit "A B", lit "A  B", [])
      /\ format_event_segments [lit "A B"] = Some (lit "A B", [], [])).
Proof.
  vm_compute. repeat split; reflexivity.
Qed.

(** ** The matcher and the texts of a pattern *)

Module ReFacts.

(** What the matcher consumed is a text of the pattern. *)
Lemma star_loop_sound (a : Re.t) (k : Re.cont) :
  (forall s c v, Re.run a s c = Some v ->
                 exists w rest, s = w ++ rest /\ lang a w /\ c rest = Some v) ->
  forall fuel s v,
    Re.star_loop (Re.run a) k fuel s = Some v ->
    exists w rest, s = w ++ rest /\ lang (Re.Star a) w /\ k rest = Some v.
Proof.
  intros Hstep. induction fuel as [|fuel IH]; intros s v; cbn [Re.star_loop].
  - intros Hk. exists [], s. repeat split; [|assumption].
    exists []. split; [reflexivity | constructor].
  - destruct (Re.run a s _) as [x|] eqn:Hiter.
    + intros [= ->].
      apply Hstep in Hiter as (w1 & s' & -> & Hw1 & Hnext).
      destruct (length s' <? length (w1 ++ s')); [|discriminate].
      apply IH in Hnext as (w' & rest & -> & (ws & -> & Hws) & Hk).
      exists (w1 ++ concat ws), rest. rewrite app_assoc.
      repeat split; [|assumption].
      exists (w1 :: ws). split; [reflexivity | constructor; assumption].
    + intros Hk. exists [], s. repeat split; [|assumption].
      exists []. split; [reflexivity | constructor].
Qed.

Lemma run_sound (r : Re.t) :
  forall s k v,
    Re.run r s k = Some v ->
    exists w rest, s = w ++ rest /\ lang r w /\ k rest = Some v.
Proof.
  induction r as [|p|a IHa b IHb|a IHa b IHb|a IHa]; intros s k v;
    cbn [Re.run].
  - intros Hk. exists [], s. repeat split; assumption.
  - destruct s as [|c s']; [discriminate|].
    destruct (p c) eqn:Hc; [|discriminate].
    intros Hk. exists [c], s'. repeat split; [|assumption].
    exists c. split; [reflexivity | assumption].
  - intros Hrun. apply IHa in Hrun as (w1 & s' & -> & Hw1 & Hrun).
    apply IHb in Hrun as (w2 & rest & -> & Hw2 & Hk).
    exists (w1 ++ w2), rest. rewrite app_assoc.
    repeat split; [|assumption].
    exists w1, w2. repeat split; assumption.
  - destruct (Re.run a s k) eqn:Ha.
    + intros [= ->]. apply IHa in Ha as (w & rest & -> & Hw & Hk).
      exists w, rest. repeat split; [left|]; assumption.
    + intros Hb. apply IHb in Hb as (w & rest & -> & Hw & Hk).
      exists w, rest. repeat split; [right|]; assumption.
  - apply star_loop_sound. exact IHa.
Qed.

(** A text of the pattern is matched, whatever comes after it. *)
Lemma star_loop_complete (a : Re.t) (k : Re.cont) (tail : str) :
  (forall w, lang a w ->
             forall t c, c t <> None -> Re.run a (w ++ t) c <> None) ->
  k tail <> None ->
  forall ws, Forall (lang a) ws ->
             forall fuel, length (concat ws) <= fuel ->
                          Re.star_loop (Re.run a) k fuel (concat ws ++ tail)
                          <> None.
Proof.
  intros Hstep Hk. induction ws as [|w1 ws IH]; intros Hws fuel Hfuel.
  - cbn [concat app]. destruct fuel; cbn [Re.star_loop]; [assumption|].
    destruct (Re.run a tail _); [discriminate | assumption].
  - inversion Hws as [|? ? Hw1 Hrest]; subst.
    cbn [concat] in *. destruct w1 as [|c w1]; [apply IH; assumption|].
    rewrite length_app in Hfuel. cbn [length] in Hfuel.
    destruct fuel as [|fuel]; [lia|]. cbn [Re.star_loop].
    rewrite <- app_assoc.
    assert (Hiter : Re.run a ((c :: w1) ++ concat ws ++ tail)
              (fun s' =>
                 if length s' <? length ((c :: w1) ++ concat ws ++ tail)
                 then Re.star_loop (Re.run a) k fuel s' else None)
              <> None).
    { apply Hstep; [assumption|].
      replace (length (concat ws ++ tail)
               <? length ((c :: w1) ++ concat ws ++ tail))
        with true
        by (symmetry; apply Nat.ltb_lt; rewrite !length_app; cbn; lia).
      apply IH; [assumption | lia]. }
    destruct (Re.run a _ _); [discriminate | congruence].
Qed.

Lemma run_complete (r : Re.t) :
  forall w, lang r w ->
            forall t k, k t <> None -> Re.run r (w ++ t) k <> None.
Proof.
  induction r as [|p|a IHa b IHb|a IHa b IHb|a IHa]; intros w Hw t k Hk;
    cbn [lang Re.run] in *.
  - subst. assumption.
  - destruct Hw as (c & -> & Hc). cbn [app]. rewrite Hc. assumption.
  - destruct Hw as (w1 & w2 & -> & Hw1 & Hw2). rewrite <- app_assoc.
    apply IHa; [assumption|]. apply IHb; assumption.
  - destruct Hw as [Hw | Hw].
    + pose proof (IHa w Hw t k Hk) as Ha.
      destruct (Re.run a (w ++ t) k); [discriminate | congruence].
    + pose proof (IHb w Hw t k Hk) as Hb.
      destruct (Re.run a (w ++ t) k); [discriminate | assumption].
  - destruct Hw as (ws & -> & Hws).
    apply star_loop_complete; try assumption.
    rewrite length_app. lia.
Qed.

Lemma match_len_complete (r : Re.t) (w t : str) :
  lang r w -> Re.match_len r (w ++ t) <> None.
Proof.
  intros Hw. unfold Re.match_len.
  assert (Hrun : Re.run r (w ++ t) Re.anywhere <> None)
    by (apply run_complete; [assumption | discriminate]).
  destruct (Re.run r (w ++ t) Re.anywhere); [discriminate | congruence].
Qed.

Lemma search_from_app (r : Re.t) (s : str) :
  Re.match_len r s <> None ->
  forall pre pos, Re.search_from r pos (pre ++ s) <> None.
Proof.
  intros Hm. induction pre as [|c pre IH]; intros pos.
  - cbn [app]. destruct s; cbn [Re.search_from];
      destruct (Re.match_len r _); congruence.
  - cbn [app Re.search_from].
    destruct (Re.match_len r (c :: pre ++ s)); [discriminate | apply IH].
Qed.

(** [search] succeeds exactly on the texts that hold a text of the
    pattern. *)
Lemma search_from_sound (r : Re.t) (s : str) :
  forall pos, Re.search_from r pos s <> None ->
              exists pre w post, s = pre ++ w ++ post /\ lang r w.
Proof.
  induction s as [|c s IH]; intros pos; cbn [Re.search_from].
  - unfold Re.match_len.
    destruct (Re.run r [] Re.anywhere) eqn:Hrun; [|congruence].
    intros _. apply run_sound in Hrun as (w & post & Hs & Hw & _).
    exists [], w, post. split; assumption.
  - unfold Re.match_len.
    destruct (Re.run r (c :: s) Re.anywhere) eqn:Hrun.
    + intros _. apply run_sound in Hrun as (w & post & Hs & Hw & _).
      exists [], w, post. split; assumption.
    + intros Hfound. apply IH in Hfound as (pre & w & post & -> & Hw).
      exists (c :: pre), w, post. split; [reflexivity | assumption].
Qed.

Lemma search_complete (r : Re.t) (pre w post : str) :
  lang r w -> Re.search r (pre ++ w ++ post) <> None.
Proof.
  intros Hw. apply search_from_app, match_len_complete. assumption.
Qed.

Lemma fullmatch_sound (r : Re.t) (s : str) :
  Re.fullmatch r s = true -> lang r s.
Proof.
  unfold Re.fullmatch.
  destruct (Re.run r s Re.at_end) eqn:Hrun; [|discriminate].
  intros _. apply run_sound in Hrun as (w & rest & -> & Hw & Hend).
  unfold Re.at_end in Hend. destruct rest; [|discriminate].
  rewrite app_nil_r. assumption.
Qed.


End ReFacts.

(** ** The boundary tests on a text and on its trimmed form *)

Lemma lstrip_by_app_keep (p : ascii -> bool) (pre rest : str) (c : ascii) :
  p c = false ->
  lstrip_by p (pre ++ c :: rest) = lstrip_by p pre ++ c :: rest.
Proof.
  intros Hc. induction pre as [|x pre IH]; cbn [app lstrip_by].
  - rewrite Hc. reflexivity.
  - destruct (p x); [apply IH | reflexivity].
Qed.

Lemma rstrip_by_cons_keep (p : ascii -> bool) (d : ascii) (post : str) :
  p d = false -> rstrip_by p (d :: post) = d :: rstrip_by p post.
Proof.
  intros Hd. cbn [rstrip_by]. rewrite Hd.
  destruct (rstrip_by p post); reflexivity.
Qed.

Lemma rstrip_by_app_keep (p : ascii -> bool) (y z : str) :
  rstrip_by p z <> [] -> rstrip_by p (y ++ z) = y ++ rstrip_by p z.
Proof.
  intros Hz. induction y as [|c y IH]; [reflexivity|].
  cbn [app rstrip_by]. rewrite IH.
  destruct (y ++ rstrip_by p z) eqn:Hyz; [|reflexivity].
  apply app_eq_nil in Hyz as [_ Hnil]. congruence.
Qed.

Lemma strip_by_inside (p : ascii -> bool) (pre mid post : str) (c d : ascii) :
  p c = false -> p d = false ->
  strip_by p (pre ++ (c :: mid ++ [d]) ++ post)
  = lstrip_by p pre ++ (c :: mid ++ [d]) ++ rstrip_by p post.
Proof.
  intros Hc Hd. unfold strip_by.
  cbn [app]. rewrite <- !app_assoc. cbn [app].
  rewrite lstrip_by_app_keep by assumption.
  change (lstrip_by p pre ++ c :: mid ++ d :: post)
    with (lstrip_by p pre ++ (c :: mid) ++ d :: post).
  rewrite app_assoc, rstrip_by_app_keep;
    rewrite rstrip_by_cons_keep by assumption; [|discriminate].
  rewrite <- app_assoc. reflexivity.
Qed.

Lemma strip_by_noblank (p : ascii -> bool) (s : str) :
  forallb (fun c => negb (p c)) s = true -> strip_by p s = s.
Proof.
  intros Hall. unfold strip_by.
  assert (Hl : lstrip_by p s = s).
  { destruct s as [|c s]; [reflexivity|]. cbn [forallb lstrip_by] in *.
    apply andb_true_iff in Hall as [Hc _]. apply negb_true_iff in Hc.
    rewrite Hc. reflexivity. }
  rewrite Hl. clear Hl.
  induction s as [|c s IH]; [reflexivity|].
  cbn [forallb rstrip_by] in *.
  apply andb_true_iff in Hall as [Hc Hs]. apply negb_true_iff in Hc.
  rewrite (IH Hs), Hc. destruct s; reflexivity.
Qed.

Lemma alpha_not_space (c : ascii) :
  Char.isalpha c = true -> Char.isspace c = false.
Proof.
  destruct c as [[] [] [] [] [] [] [] []]; vm_compute; congruence.
Qed.

Lemma digit_not_space (c : ascii) :
  Char.isdigit c = true -> Char.isspace c = false.
Proof.
  destruct c as [[] [] [] [] [] [] [] []]; vm_compute; congruence.
Qed.

(** A long-form date starts with a letter and ends with a digit. *)
Lemma date_pattern_edges (w : str) :
  lang DATE_PATTERN w ->
  exists c mid d,
    w = c :: mid ++ [d]
    /\ Char.isspace c = false /\ Char.isspace d = false.
Proof.
  unfold DATE_PATTERN, Re.Plus, Re.Rep12, Re.Rep4, Re.Opt. cbn [lang].
  intros (wa & w1 & -> & (l1 & ls & -> & (c & -> & Hc) & _)
          & (wsp & w2 & -> & _
             & (wd & w3 & -> & _
                & (wl & w4 & -> & _
                   & (d1 & w5 & -> & _
                      & (d2 & w6 & -> & _
                         & (d3 & d4 & -> & _ & (d & -> & Hd)))))))).
  exists c, (ls ++ wsp ++ wd ++ wl ++ d1 ++ d2 ++ d3), d.
  repeat split.
  - cbn [app]. rewrite <- !app_assoc. reflexivity.
  - apply alpha_not_space. assumption.
  - apply digit_not_space. assumption.
Qed.

Lemma search_date_strip (text : str) :
  Re.search DATE_PATTERN text <> None ->
  Re.search DATE_PATTERN (strip text) <> None.
Proof.
  intros Hfound.
  apply ReFacts.search_from_sound in Hfound as (pre & w & post & -> & Hw).
  destruct (date_pattern_edges w Hw) as (c & mid & d & -> & Hc & Hd).
  unfold strip. rewrite strip_by_inside by assumption.
  apply ReFacts.search_complete. assumption.
Qed.

Lemma chars_of_class (p : ascii -> bool) (ws : list str) :
  Forall (lang (Re.Chr p)) ws -> forallb p (concat ws) = true.
Proof.
  induction 1 as [|w ws (c & -> & Hc) _ IH]; [reflexivity|].
  cbn [concat app forallb]. rewrite Hc, IH. reflexivity.
Qed.

Lemma digits_only_noblank (text : str) :
  Re.fullmatch DIGITS_ONLY_PATTERN text = true ->
  forallb (fun c => negb (Char.isspace c)) text = true.
Proof.
  intros Hfull. apply ReFacts.fullmatch_sound in Hfull.
  unfold DIGITS_ONLY_PATTERN, Re.Plus in Hfull. cbn [lang] in Hfull.
  destruct Hfull as (w1 & w2 & -> & (c & -> & Hc) & (ws & -> & Hws)).
  apply chars_of_class in Hws.
  apply forallb_forall. intros x Hin.
  assert (Hx : Char.isdigit x = true).
  { destruct Hin as [<- | Hin]; [assumption|].
    rewrite forallb_forall in Hws. apply Hws. assumption. }
  rewrite (digit_not_space x Hx). reflexivity.
Qed.

Lemma day_name_noblank (text : str) :
  mem (upper text) DAY_NAMES_UPPER = true ->
  forallb (fun c => negb (Char.isspace c)) text = true.
Proof.
  intros Hmem. apply mem_In in Hmem.
  assert (Hnames : forallb (forallb (fun c => negb (Char.isspace c)))
                     DAY_NAMES_UPPER = true) by reflexivity.
  rewrite forallb_forall in Hnames. apply Hnames in Hmem.
  unfold upper in Hmem. rewrite forallb_forall in Hmem.
  apply forallb_forall. intros c Hc.
  rewrite <- isspace_upper. apply Hmem. apply in_map. assumption.
Qed.

(** ** The match [search] returns *)




Section Properties.

Context {C : Type} `{Coord C}.
Variable date : Type.
Variable strptime : str -> option date.
Variable isoformat : date -> str.
Variable cluster_objects : list (word C) -> list (list (word C)).

(** ** Page header locator *)

Lemma find_day_from_Some (lines : list (line C)) :
  forall idx i,
    find_day_from idx lines = Some i ->
    exists k l,
      i = idx + k /\ nth_error lines k = Some l /\ is_day_line l = true
      /\ forall j l', j < k -> nth_error lines j = Some l' ->
                      is_day_line l' = false.
Proof.
  induction lines as [|l0 rest IH]; intros idx i; simpl; [discriminate|].
  destruct (is_day_line l0) eqn:Hday.
  - intros [= <-]. exists 0, l0. repeat split; auto with arith.
    intros j l' Hj; inversion Hj.
  - intros Hfind. apply IH in Hfind as (k & l & -> & Hnth & Hl & Hbefore).
    exists (S k), l. repeat split; auto with arith.
    intros [|j] l' Hj; simpl.
    + intros [= <-]; assumption.
    + apply Hbefore; lia.
Qed.

Lemma find_day_from_first (lines : list (line C)) :
  forall idx k l,
    nth_error lines k = Some l -> is_day_line l = true ->
    (forall j l', j < k -> nth_error lines j = Some l' ->
                  is_day_line l' = false) ->
    find_day_from idx lines = Some (idx + k).
Proof.
  induction lines as [|l0 rest IH]; intros idx [|k] l; simpl;
    try discriminate.
  - intros [= ->] -> _. rewrite Nat.add_0_r. reflexivity.
  - intros Hnth Hl Hbefore.
    rewrite (Hbefore 0 l0) by (auto with arith).
    rewrite (IH (S idx) k l Hnth Hl).
    + replace (idx + S k) with (S idx + k) by lia. reflexivity.
    + intros j l' Hj Hj'. apply (Hbefore (S j)); [lia | exact Hj'].
Qed.

Lemma find_day_from_None (lines : list (line C)) :
  forall idx,
    find_day_from idx lines = None <->
    (forall l, In l lines -> is_day_line l = false).
Proof.
  induction lines as [|l0 rest IH]; intros idx; simpl.
  - split; [intros _ l [] | reflexivity].
  - destruct (is_day_line l0) eqn:Hday.
    + split; [discriminate|]. intros Hall.
      rewrite (Hall l0) in Hday by auto. discriminate.
    + rewrite IH. split.
      * intros Hall l [<- | Hin]; auto.
      * intros Hall l Hin; auto.
Qed.

Lemma is_day_line_names (l : line C) :
  is_day_line l = true <->
  exists name, In name DAY_NAMES /\ upper (strip (line_text l)) = upper name.
Proof.
  unfold is_day_line, DAY_NAMES_UPPER. rewrite mem_In, in_map_iff.
  split; intros (name & ? & ?); exists name; auto.
Qed.

(** C9: [find_day_line_index] returns the index of the first line whose
    trimmed, uppercased text is one of the seven day names, and [None]
    when there is no such line; a list whose only day-name line is at
    index [i] gives [i]. *)
Theorem find_day_line_index_first (lines : list (line C)) :
  (forall i,
      find_day_line_index lines = Some i <->
      (exists l, nth_error lines i = Some l /\ is_day_line l = true)
      /\ (forall j l', j < i -> nth_error lines j = Some l' ->
                       is_day_line l' = false))
  /\ (find_day_line_index lines = None <->
      forall l, In l lines -> is_day_line l = false)
  /\ (forall i l,
         nth_error lines i = Some l -> is_day_line l = true ->
         (forall j l', j <> i -> nth_error lines j = Some l' ->
                       is_day_line l' = false) ->
         find_day_line_index lines = Some i)
  /\ (forall l : line C,
         is_day_line l = true <->
         exists name,
           In name DAY_NAMES /\ upper (strip (line_text l)) = upper name).
Proof.
  unfold find_day_line_index. repeat split.
  - apply find_day_from_Some in H0 as (k & l & -> & Hnth & Hl & _).
    exists l; auto.
  - apply find_day_from_Some in H0 as (k & l & -> & _ & _ & Hbefore).
    exact Hbefore.
  - intros [(l & Hnth & Hl) Hbefore].
    apply (find_day_from_first lines 0 i l); assumption.
  - apply find_day_from_None.
  - apply find_day_from_None.
  - intros i l Hnth Hl Honly.
    apply (find_day_from_first lines 0 i l); try assumption.
    intros j l' Hj. apply Honly. lia.
  - apply is_day_line_names.
  - apply is_day_line_names.
Qed.





(** ** Event segmenter: the end of the schedule region *)

Lemma region_end_has_text (l : line C) :
  is_region_end l = true -> is_empty (strip (line_text l)) = false.
Proof.
  unfold is_region_end. cbv zeta.
  destruct (strip (line_text l)); [|reflexivity].
  cbn. discriminate.
Qed.

Lemma merge_line_break (st : state C) (l : line C) :
  is_region_end l = true -> merge_line st l = Break.
Proof.
  intros Hend. unfold merge_line. cbv zeta.
  rewrite (region_end_has_text l Hend), Hend. reflexivity.
Qed.

Lemma merge_loop_stops (before after : list (line C)) (l : line C) :
  is_region_end l = true ->
  forall st, merge_loop st (before ++ l :: after) = merge_loop st before.
Proof.
  intros Hend. induction before as [|l0 before IH]; intros st; simpl.
  - rewrite merge_line_break by assumption. reflexivity.
  - destruct (merge_line st l0); [apply IH | reflexivity].
Qed.

Lemma boundary_is_region_end (l : line C) :
  boundary_as_specified l = true -> is_region_end l = true.
Proof.
  unfold boundary_as_specified, is_region_end, strip. cbv zeta.
  intros Hb. apply orb_true_iff in Hb as [Hb | Hdigits];
    [apply orb_true_iff in Hb as [Hday | Hdate]|].
  - rewrite strip_by_noblank by (apply day_name_noblank; assumption).
    rewrite Hday. reflexivity.
  - destruct (Re.search DATE_PATTERN (line_text l)) eqn:Hs; [|discriminate].
    assert (Hstrip : Re.search DATE_PATTERN (strip (line_text l)) <> None)
      by (apply search_date_strip; rewrite Hs; discriminate).
    unfold strip in Hstrip.
    destruct (Re.search DATE_PATTERN (strip_by Char.isspace (line_text l)));
      [|congruence].
    rewrite orb_true_r. reflexivity.
  - apply andb_true_iff in Hdigits as [Hfull Hx].
    rewrite strip_by_noblank by (apply digits_only_noblank; assumption).
    rewrite Hfull, Hx. apply orb_true_r.
Qed.

(** C3: the segmenter stops at a boundary line.  When the line at index
    [i], at or after the start index, is a boundary (its text in upper
    case is a day name, or holds a long-form date, or is all digits with
    [x0 > 200]; on the text as it is, or trimmed as the segmenter tests
    it), [merge_events] returns what it returns on the lines cut just
    before index [i]: no line at or after it contributes. *)
Theorem merge_events_stops_at_region_end
  (lines : list (line C)) (start_index i : nat) (l : line C) :
  start_index <= i ->
  nth_error lines i = Some l ->
  boundary_as_specified l = true \/ is_region_end l = true ->
  merge_events lines start_index
  = merge_events (firstn i lines) start_index.
Proof.
  intros Hle Hnth Hboundary.
  assert (Hend : is_region_end l = true)
    by (destruct Hboundary; [apply boundary_is_region_end|]; assumption).
  unfold merge_events. f_equal.
  assert (Hlen : i < length lines)
    by (apply nth_error_Some; congruence).
  assert (Hsplit : lines = firstn i lines ++ l :: skipn (S i) lines).
  { clear Hle Hend Hlen Hboundary. revert i Hnth.
    induction lines as [|x xs IH]; intros [|i]; simpl; try discriminate.
    - intros [= ->]; reflexivity.
    - intros Hnth. f_equal. apply IH; assumption. }
  rewrite Hsplit at 1. rewrite skipn_app.
  rewrite length_firstn, Nat.min_l by lia.
  replace (start_index - i) with 0 by lia. simpl skipn.
  apply merge_loop_stops; assumption.
Qed.

(** ** Event segmenter: what an event is made of *)

Lemma flush_current_ok (st : state C) :
  state_ok st -> state_ok (flush_current st).
Proof.
  intros (Hev & Hcur & Hpend). unfold flush_current, state_ok.
  cbn [events current_segments pending_location_segments].
  repeat split; auto.
  destruct (is_empty (current_segments st)) eqn:Hempty; [assumption|].
  apply Forall_app. split; [assumption|].
  constructor; [|constructor].
  split; [apply is_empty_false|]; assumption.
Qed.

Lemma extend_current_ok (segments : list str) (st : state C) :
  Forall segment_ok segments ->
  state_ok st -> state_ok (extend_current segments st).
Proof.
  intros Hsegs (Hev & Hcur & Hpend). unfold extend_current, state_ok.
  cbn [events current_segments pending_location_segments].
  repeat split; auto. apply Forall_app; auto.
Qed.

Lemma extend_pending_ok (segments : list str) (st : state C) :
  Forall segment_ok segments ->
  state_ok st -> state_ok (extend_pending segments st).
Proof.
  intros Hsegs (Hev & Hcur & Hpend). unfold extend_pending, state_ok.
  cbn [events current_segments pending_location_segments].
  repeat split; auto. apply Forall_app; auto.
Qed.

Lemma set_pending_new_event_ok (b : bool) (st : state C) :
  state_ok st -> state_ok (set_pending_new_event b st).
Proof.
  intros Hst; exact Hst.
Qed.

Lemma set_current_event_x0_ok (x : option C) (st : state C) :
  state_ok st -> state_ok (set_current_event_x0 x st).
Proof.
  intros Hst; exact Hst.
Qed.

Lemma seed_from_pending_ok (st : state C) :
  state_ok st -> state_ok (seed_from_pending st).
Proof.
  intros (Hev & Hcur & Hpend). unfold seed_from_pending.
  destruct (is_empty (pending_location_segments st));
    [repeat split; assumption|].
  unfold state_ok.
  cbn [events current_segments pending_location_segments].
  repeat split; auto. apply Forall_app; auto.
Qed.

Lemma note_x0_ok (x : option C) (st : state C) :
  state_ok st -> state_ok (note_x0 x st).
Proof.
  intros Hst. unfold note_x0.
  destruct x, (current_event_x0 st); assumption.
Qed.

Lemma merge_x0_ok (x : option C) (st : state C) :
  state_ok st -> state_ok (merge_x0 x st).
Proof.
  intros Hst. unfold merge_x0.
  destruct x, (current_event_x0 st); assumption.
Qed.

Lemma resplit_ok (x : option C) (st : state C) :
  state_ok st -> state_ok (resplit x st).
Proof.
  intros Hst. unfold resplit.
  destruct (find_split_from 0 (current_segments st)) as [i|];
    [|assumption].
  destruct Hst as (Hev & Hcur & Hpend).
  rewrite <- (firstn_skipn i (current_segments st)) in Hcur.
  apply Forall_app in Hcur as [Hhead Htail].
  assert (Hsplit : state_ok
            (set_pending_new_event false
               (extend_current (skipn i (current_segments st))
                  (flush_current
                     (set_current_segments
                        (firstn i (current_segments st)) st))))).
  { apply set_pending_new_event_ok, extend_current_ok; [assumption|].
    apply flush_current_ok. repeat split; assumption. }
  cbv zeta. destruct x; [apply set_current_event_x0_ok|]; exact Hsplit.
Qed.

Ltac state_ok_step :=
  repeat first
    [ assumption
    | apply split_event_text_ok
    | apply merge_x0_ok
    | apply resplit_ok
    | apply note_x0_ok
    | apply set_current_event_x0_ok
    | apply set_pending_new_event_ok
    | apply extend_current_ok
    | apply extend_pending_ok
    | apply seed_from_pending_ok
    | apply flush_current_ok
    | match goal with
      | |- state_ok (if ?b then _ else _) => destruct b
      end ].

Lemma merge_line_ok (st st' : state C) (l : line C) :
  state_ok st -> merge_line st l = Continue st' -> state_ok st'.
Proof.
  intros Hst. unfold merge_line. cbv zeta.
  repeat match goal with
         | |- (if ?b then _ else _) = Continue _ -> _ => destruct b
         end;
    try discriminate; intros [= <-]; state_ok_step.
Qed.

Lemma merge_loop_ok (lines : list (line C)) :
  forall st, state_ok st -> state_ok (merge_loop st lines).
Proof.
  induction lines as [|l rest IH]; intros st Hst; cbn [merge_loop].
  - assumption.
  - destruct (merge_line st l) eqn:Hline; [|assumption].
    apply IH. apply (merge_line_ok st _ l); assumption.
Qed.

Lemma extend_last_ok (evs : list (list str)) (segments : list str) :
  evs <> [] -> Forall event_ok evs -> Forall segment_ok segments ->
  Forall event_ok (extend_last evs segments).
Proof.
  intros Hne Hev Hsegs. unfold extend_last.
  rewrite (app_removelast_last [] Hne) in Hev.
  apply Forall_app in Hev as [Hinit Hlast].
  apply Forall_app. split; [assumption|].
  inversion Hlast as [|ev ? [Hev_ne Hev_segs] _]; subst.
  constructor; [|constructor]. split.
  - intros Happ. apply app_eq_nil in Happ as [Hnil _]. congruence.
  - apply Forall_app; auto.
Qed.

Lemma finish_ok (st : state C) :
  state_ok st -> Forall event_ok (finish st).
Proof.
  intros Hst. unfold finish. cbv zeta.
  match goal with
  | |- Forall event_ok (events (flush_current ?st1)) =>
      assert (Hst1 : state_ok st1)
  end.
  { destruct Hst as (Hev & Hcur & Hpend).
    destruct (is_empty (pending_location_segments st));
      [repeat split; assumption|].
    destruct (is_empty (current_segments st)) eqn:Hcur_empty; cbn [negb].
    - destruct (is_empty (events st)) eqn:Hev_empty; cbn [negb].
      + repeat split; cbn; auto.
      + repeat split; cbn; auto.
        apply extend_last_ok; auto. apply is_empty_false; assumption.
    - repeat split; cbn; auto. apply Forall_app; auto. }
  apply flush_current_ok in Hst1. apply Hst1.
Qed.

Lemma merge_events_ok (lines : list (line C)) (start_index : nat) :
  Forall event_ok (merge_events lines start_index).
Proof.
  unfold merge_events. apply finish_ok, merge_loop_ok.
  repeat split; constructor.
Qed.

Lemma format_events_rows (day : str) (evs : list (list str)) :
  Forall event_ok evs ->
  forall row, In row (fst (format_events day evs)) ->
              row_date row = day /\ row_event_name row <> [].
Proof.
  induction evs as [|ev rest IH]; intros Hevs row; cbn [format_events].
  - intros [].
  - inversion Hevs as [|? ? Hev Hrest]; subst.
    destruct (format_event_segments ev) as [[[name place] person]|] eqn:Hfmt;
      [|intros []].
    destruct (format_events day rest) as [rows ok]. cbn [fst].
    intros [<- | Hin].
    + split; [reflexivity|]. cbn [row_event_name].
      apply (format_event_segments_name ev name place person); assumption.
    + apply IH; assumption.
Qed.

(** C5: every event [merge_events] returns is a non-empty list of
    non-empty segments; so on a page for which the segmenter returns
    events, every record the driver yields carries the page's date and a
    non-empty event name. *)
Theorem events_and_records_nonempty :
  (forall (lines : list (line C)) (start_index : nat) (ev : list str),
      In ev (merge_events lines start_index) ->
      ev <> [] /\ forall seg, In seg ev -> seg <> [])
  /\ (forall (ws : list (word C)) (d : date) (day_idx : nat)
             (row : str * str * str * str),
         extract_date date strptime (build_lines cluster_objects ws) = Some d ->
         find_day_line_index (build_lines cluster_objects ws) = Some day_idx ->
         merge_events (build_lines cluster_objects ws) (day_idx + 2) <> [] ->
         In row (fst (extract_page date strptime isoformat cluster_objects ws)) ->
         row_date row = isoformat d /\ row_event_name row <> []).
Proof.
  split.
  - intros lines start_index ev Hin.
    pose proof (merge_events_ok lines start_index) as Hok.
    rewrite Forall_forall in Hok. destruct (Hok ev Hin) as [Hne Hsegs].
    split; [assumption|]. intros seg Hseg.
    rewrite Forall_forall in Hsegs.
    apply has_nonblank_nonempty, Hsegs, Hseg.
  - intros ws d day_idx row Hdate Hday Hevents. unfold extract_page.
    destruct (is_empty ws); [intros []|].
    rewrite Hdate, Hday.
    apply is_empty_false in Hevents. rewrite Hevents.
    apply format_events_rows, merge_events_ok.
Qed.

(** ** Extraction driver *)

(** C6: a page with an extractable date and a day-marker line on which
    the segmenter finds no event yields exactly one record, the
    placeholder [(date, '', '', '')]. *)
Theorem extract_page_placeholder
  (ws : list (word C)) (d : date) (day_idx : nat) :
  ws <> [] ->
  extract_date date strptime (build_lines cluster_objects ws) = Some d ->
  find_day_line_index (build_lines cluster_objects ws) = Some day_idx ->
  merge_events (build_lines cluster_objects ws) (day_idx + 2) = [] ->
  extract_page date strptime isoformat cluster_objects ws
  = ([(isoformat d, [], [], [])], true).
Proof.
  intros Hws Hdate Hday Hevents. unfold extract_page.
  destruct ws; [congruence|]. cbn [is_empty].
  rewrite Hdate, Hday, Hevents. reflexivity.
Qed.

End Properties.


(** * Further properties of the code *)

(** ** Trimming *)

Lemma lstrip_by_idem (p : ascii -> bool) (s : str) :
  lstrip_by p (lstrip_by p s) = lstrip_by p s.
Proof.
  induction s as [|c s IH]; [reflexivity|].
  cbn [lstrip_by]. destruct (p c) eqn:Hc; [exact IH|].
  cbn [lstrip_by]. rewrite Hc. reflexivity.
Qed.

Lemma rstrip_by_idem (p : ascii -> bool) (s : str) :
  rstrip_by p (rstrip_by p s) = rstrip_by p s.
Proof.
  induction s as [|c s IH]; [reflexivity|].
  cbn [rstrip_by]. destruct (rstrip_by p s) as [|x r] eqn:Hr.
  - destruct (p c) eqn:Hc; [reflexivity|].
    cbn [rstrip_by]. rewrite Hc. reflexivity.
  - change (rstrip_by p (c :: x :: r)) with
      (match rstrip_by p (x :: r) with
       | [] => if p c then [] else [c]
       | y :: r' => c :: y :: r'
       end).
    rewrite IH. reflexivity.
Qed.

Lemma strip_by_idem (p : ascii -> bool) (s : str) :
  strip_by p (strip_by p s) = strip_by p s.
Proof.
  unfold strip_by.
  rewrite <- (strip_by_comm p (lstrip_by p s)).
  rewrite lstrip_by_idem, rstrip_by_idem. reflexivity.
Qed.

Lemma strip_trimmed (s : str) : trimmed (strip s).
Proof.
  apply strip_by_idem.
Qed.

Lemma lstrip_by_In (p : ascii -> bool) (x : ascii) (s : str) :
  In x (lstrip_by p s) -> In x s.
Proof.
  induction s as [|c s IH]; [auto|].
  cbn [lstrip_by]. destruct (p c); [right; auto | auto].
Qed.

Lemma rstrip_by_In (p : ascii -> bool) (x : ascii) (s : str) :
  In x (rstrip_by p s) -> In x s.
Proof.
  induction s as [|c s IH]; [auto|].
  cbn [rstrip_by]. destruct (rstrip_by p s) as [|y r].
  - destruct (p c); [intros [] | intros [<- | []]; left; reflexivity].
  - intros [<- | Hin]; [left; reflexivity | right; apply IH; assumption].
Qed.

Lemma strip_by_In (p : ascii -> bool) (x : ascii) (s : str) :
  In x (strip_by p s) -> In x s.
Proof.
  intros Hin. apply (lstrip_by_In p), (rstrip_by_In p). exact Hin.
Qed.

(** A trimmed text starts with a character that is not blank. *)
Lemma trimmed_head (c : ascii) (s : str) :
  trimmed (c :: s) -> Char.isspace c = false.
Proof.
  unfold trimmed, strip, strip_by. cbn [lstrip_by].
  destruct (Char.isspace c) eqn:Hc; [|reflexivity].
  intros Heq.
  assert (Hlen : length (rstrip_by Char.isspace (lstrip_by Char.isspace s))
                 = S (length s)) by (rewrite Heq; reflexivity).
  assert (Hr : forall y, length (rstrip_by Char.isspace y) <= length y).
  { induction y as [|a y IHy]; cbn [rstrip_by length]; [lia|].
    destruct (rstrip_by Char.isspace y);
      [destruct (Char.isspace a)|]; cbn [length] in *; lia. }
  pose proof (Hr (lstrip_by Char.isspace s)).
  pose proof (lstrip_by_length Char.isspace s). lia.
Qed.

(** ** Segment splitter *)

Lemma split_char_no_separator (c : ascii) (s : str) :
  forall part, In part (split_char c s) -> ~ In c part.
Proof.
  induction s as [|x s IH]; intros part; cbn [split_char].
  - intros [<- | []]. intros [].
  - destruct (Char.eqb x c) eqn:Hx.
    + intros [<- | Hin]; [intros [] | apply IH; assumption].
    + destruct (split_char c s) as [|p ps].
      * intros [<- | []]. intros [-> | []].
        unfold Char.eqb in Hx. rewrite Ascii.eqb_refl in Hx. discriminate.
      * intros [<- | Hin].
        -- intros [-> | Hc].
           ++ unfold Char.eqb in Hx. rewrite Ascii.eqb_refl in Hx.
              discriminate.
           ++ apply (IH p); [left; reflexivity | assumption].
        -- apply IH. right; assumption.
Qed.

Lemma split_event_text_In (event_text seg : str) :
  In seg (split_event_text event_text) ->
  seg <> [] /\ trimmed seg /\ ~ In ";"%char seg
  /\ upper seg <> lit "BOI BOI".
Proof.
  unfold split_event_text.
  destruct (is_empty event_text); [intros []|]. cbv zeta.
  intros Hin. apply filter_In in Hin as [Hin Hkeep].
  apply andb_true_iff in Hkeep as [Hne Hnoise].
  apply negb_true_iff in Hne, Hnoise.
  apply in_map_iff in Hin as (part & <- & Hpart).
  repeat split.
  - apply is_empty_false. assumption.
  - apply strip_trimmed.
  - intros Hsemi. apply strip_by_In in Hsemi.
    apply (split_char_no_separator _ _ _ Hpart). assumption.
  - intros Heq.
    assert (Hmem : mem (upper (strip part)) NOISE_SEGMENTS = true)
      by (apply mem_In; left; symmetry; assumption).
    congruence.
Qed.

(** X1: every segment [split_event_text] returns is non-empty, has no
    blank around it, holds no semicolon and is not the noise text
    BOI BOI (in any letter case). *)
Theorem split_event_text_segments (event_text seg : str) :
  In seg (split_event_text event_text) ->
  seg <> [] /\ trimmed seg /\ ~ In ";"%char seg
  /\ upper seg <> lit "BOI BOI".
Proof.
  apply split_event_text_In.
Qed.

(** ** Meeting place *)

Lemma after_first_None (sep s : str) :
  after_first sep s = None <-> contains sep s = false.
Proof.
  induction s as [|c s IH]; cbn [after_first contains].
  - destruct (startswith sep []); cbn; split; congruence.
  - destruct (startswith sep (c :: s)); cbn [orb];
      [split; discriminate | exact IH].
Qed.

(** X2: [clean_meeting_place] raises (the [IndexError] of
    [split('PH:', 1)[1]]) exactly when the trimmed text starts with PH: in
    some letter case without holding PH: in capitals; a text that does not
    start with PH: comes back trimmed, and one that starts with PH: in
    capitals comes back without that prefix, trimmed again. *)
Theorem clean_meeting_place_cases (text : str) :
  (clean_meeting_place text = None <->
   startswith "PH:" (upper (strip text)) = true
   /\ contains "PH:" (strip text) = false)
  /\ (startswith "PH:" (upper (strip text)) = false ->
      clean_meeting_place text = Some (strip text))
  /\ (startswith "PH:" (strip text) = true ->
      clean_meeting_place text = Some (strip (skipn 3 (strip text)))).
Proof.
  unfold clean_meeting_place. cbv zeta. repeat split.
  - destruct (startswith "PH:" (upper (strip text))); [|discriminate].
    reflexivity.
  - destruct (startswith "PH:" (upper (strip text))); [|discriminate].
    destruct (after_first "PH:" (strip text)) eqn:Hafter; [discriminate|].
    apply after_first_None. assumption.
  - intros [Hstart Hnone]. rewrite Hstart.
    apply after_first_None in Hnone. rewrite Hnone. reflexivity.
  - intros Hstart. rewrite Hstart. reflexivity.
  - intros Hstart.
    destruct (strip text) as [|a [|b [|c rest]]] eqn:Hclean;
      cbn [startswith lit String.list_ascii_of_string] in Hstart;
      rewrite ?andb_false_r in Hstart; try discriminate.
    apply andb_true_iff in Hstart as [Ha Hstart].
    apply andb_true_iff in Hstart as [Hb Hstart].
    apply andb_true_iff in Hstart as [Hc _].
    unfold Char.eqb in Ha, Hb, Hc.
    apply Ascii.eqb_eq in Ha, Hb, Hc. subst a b c. reflexivity.
Qed.

(** ** Location segments *)

Lemma upper_char_idem (c : ascii) : Char.upper (Char.upper c) = Char.upper c.
Proof.
  destruct c as [[] [] [] [] [] [] [] []]; reflexivity.
Qed.

Lemma upper_idem (s : str) : upper (upper s) = upper s.
Proof.
  unfold upper. rewrite map_map. apply map_ext. apply upper_char_idem.
Qed.

Lemma is_location_segment_by_text (a b : str) :
  upper (strip a) = upper (strip b) ->
  is_location_segment a = is_location_segment b.
Proof.
  intros Heq. unfold is_location_segment. cbv zeta. rewrite Heq.
  assert (Hempty : is_empty (strip a) = is_empty (strip b)).
  { unfold upper in Heq. destruct (strip a), (strip b);
      try reflexivity; discriminate. }
  rewrite Hempty. reflexivity.
Qed.

(** X3: [is_location_segment] sees neither the letter case of a segment
    nor the blanks around it: a segment, its upper-case form and its
    trimmed form are classified alike, as are any two segments that agree
    once trimmed and uppercased. *)
Theorem is_location_segment_insensitive (segment other : str) :
  is_location_segment (upper segment) = is_location_segment segment
  /\ is_location_segment (strip segment) = is_location_segment segment
  /\ (upper (strip segment) = upper (strip other) ->
      is_location_segment segment = is_location_segment other).
Proof.
  repeat split.
  - apply is_location_segment_by_text.
    rewrite <- upper_strip, upper_idem. reflexivity.
  - apply is_location_segment_by_text.
    rewrite (strip_trimmed segment). reflexivity.
  - apply is_location_segment_by_text.
Qed.

(** ** Field formatter: how the event name grows *)

Lemma rstrip_by_app_prefix (p : ascii -> bool) (y z : str) :
  rstrip_by p y = y -> exists t, rstrip_by p (y ++ z) = y ++ t.
Proof.
  induction y as [|c y IH]; [intros _; exists (rstrip_by p z); reflexivity|].
  cbn [rstrip_by app]. intros Hy.
  destruct (rstrip_by p y) as [|x r] eqn:Hr.
  - destruct (p c) eqn:Hc; [discriminate|].
    injection Hy as <-. cbn [app].
    exists (rstrip_by p z). destruct (rstrip_by p z); reflexivity.
  - injection Hy as Hy. destruct (IH Hy) as (t & Ht). rewrite Ht.
    exists t. rewrite <- Hy. reflexivity.
Qed.

Lemma strip_app_prefix (field z : str) :
  trimmed field -> exists t, strip (field ++ z) = field ++ t.
Proof.
  intros Htrim. destruct field as [|c f]; [exists (strip z); reflexivity|].
  pose proof (trimmed_head c f Htrim) as Hc.
  unfold trimmed, strip, strip_by in *. cbn [app lstrip_by] in *.
  rewrite Hc in *. apply (rstrip_by_app_prefix _ (c :: f)). assumption.
Qed.

Lemma absorb_segment_prefix (field1 : str) (processed : list str)
  (segment : str) :
  trimmed field1 ->
  trimmed (fst (absorb_segment (field1, processed) segment))
  /\ exists t, fst (absorb_segment (field1, processed) segment) = field1 ++ t.
Proof.
  intros Htrim. unfold absorb_segment.
  assert (Hsame : trimmed field1 /\ exists t, field1 = field1 ++ t)
    by (split; [assumption | exists []; symmetry; apply app_nil_r]).
  destruct (is_empty segment); [exact Hsame|].
  destruct (startswith _ _).
  - cbn [fst]. split; [apply strip_trimmed | apply strip_app_prefix; assumption].
  - destruct (should_skip_segment field1 segment); [exact Hsame|].
    destruct (Re.search EMBEDDED_NAME segment) as [[[|n] g]|]; exact Hsame.
Qed.

Lemma fold_absorb_prefix (segments : list str) :
  forall field1 processed,
    trimmed field1 ->
    exists t,
      fst (fold_left absorb_segment segments (field1, processed))
      = field1 ++ t.
Proof.
  induction segments as [|seg rest IH]; intros field1 processed Htrim;
    cbn [fold_left].
  - exists []. symmetry. apply app_nil_r.
  - destruct (absorb_segment_prefix field1 processed seg Htrim)
      as [Htrim' (t & Ht)].
    destruct (absorb_segment (field1, processed) seg) as [field1' processed'].
    cbn [fst] in *. destruct (IH field1' processed' Htrim') as (t' & Ht').
    exists (t ++ t'). rewrite Ht', Ht, app_assoc. reflexivity.
Qed.

Lemma absorb_segment_same_name (acc : str * list str) (segment : str) :
  startswith "PH:" (upper segment) = false ->
  fst (absorb_segment acc segment) = fst acc.
Proof.
  destruct acc as [field1 processed]. unfold absorb_segment. intros ->.
  destruct (is_empty segment); [reflexivity|].
  destruct (should_skip_segment field1 segment); [reflexivity|].
  destruct (Re.search EMBEDDED_NAME segment) as [[[|n] g]|]; reflexivity.
Qed.

Lemma fold_absorb_same_name (segments : list str) :
  Forall (fun seg => startswith "PH:" (upper seg) = false) segments ->
  forall acc, fst (fold_left absorb_segment segments acc) = fst acc.
Proof.
  induction 1 as [|seg rest Hseg _ IH]; intros acc; cbn [fold_left].
  - reflexivity.
  - rewrite IH. apply absorb_segment_same_name. assumption.
Qed.

Lemma format_event_segments_field1 (first : str) (others : list str)
  (event_name meeting_place person : str) :
  format_event_segments (first :: others)
  = Some (event_name, meeting_place, person) ->
  event_name
  = fst (fold_left absorb_segment
           (map strip
              (filter (fun seg => negb (is_empty seg)
                                  && negb (is_empty (strip seg)))
                      others))
           (strip first, [])).
Proof.
  unfold format_event_segments.
  destruct (fold_left absorb_segment _ _) as [field1 processed].
  cbv zeta.
  match goal with
  | |- (let '(_, _) := ?choice in _) = _ -> _ =>
      destruct choice as [meeting_parts person_parts]
  end.
  destruct (clean_meeting_place _); [|discriminate].
  intros [= <- _ _]. reflexivity.
Qed.

(** X4: the event name [format_event_segments] returns always begins
    with the trimmed first segment, text being only appended to it; and
    when no later segment starts with PH: the event name is the trimmed
    first segment itself. *)
Theorem event_name_begins_with_first_segment
  (first : str) (others : list str) (event_name meeting_place person : str) :
  format_event_segments (first :: others)
  = Some (event_name, meeting_place, person) ->
  (exists appended, event_name = strip first ++ appended)
  /\ ((forall seg, In seg others ->
                   startswith "PH:" (upper (strip seg)) = false) ->
      event_name = strip first).
Proof.
  intros Hfmt. apply format_event_segments_field1 in Hfmt. subst event_name.
  split.
  - apply fold_absorb_prefix, strip_trimmed.
  - intros Hno. rewrite fold_absorb_same_name; [reflexivity|].
    apply Forall_forall. intros seg Hin.
    apply in_map_iff in Hin as (raw & <- & Hraw).
    apply filter_In in Hraw as [Hraw _]. apply Hno. assumption.
Qed.

(** ** Field formatter: when it cannot raise *)

Lemma startswith_app (k x t : str) :
  startswith k x = true -> startswith k (x ++ t) = true.
Proof.
  revert x. induction k as [|a k IH]; intros [|c x]; cbn [startswith app];
    try reflexivity; try discriminate.
  intros Hk. apply andb_true_iff in Hk as [-> Hk].
  rewrite (IH x Hk). reflexivity.
Qed.

Lemma phone_prefix_strip (x : str) :
  startswith "PH:" (upper (strip x))
  = startswith "PH:" (lstrip_by Char.isspace (upper x)).
Proof.
  rewrite upper_strip. unfold strip, strip_by.
  change (lit "PH:") with ("P"%char :: lit "H:").
  apply startswith_rstrip. reflexivity.
Qed.

Lemma phone_prefix_head (c : ascii) (x : str) :
  Char.isspace c = false ->
  startswith "PH:" (upper (strip (c :: x)))
  = startswith "PH:" (upper (c :: x)).
Proof.
  intros Hc. rewrite phone_prefix_strip. unfold upper.
  cbn [map lstrip_by]. rewrite isspace_upper, Hc. reflexivity.
Qed.

Lemma no_phone_prefix_of_prefix (y t : str) :
  startswith "PH:" (upper (y ++ t)) = false ->
  (forall c y', y = c :: y' -> Char.isspace c = false) ->
  no_phone_prefix y.
Proof.
  intros Hwhole Hhead. unfold no_phone_prefix.
  destruct y as [|c y']; [reflexivity|].
  rewrite phone_prefix_head by (apply (Hhead c y'); reflexivity).
  destruct (startswith "PH:" (upper (c :: y'))) eqn:Hy; [|reflexivity].
  apply (startswith_app _ _ (upper t)) in Hy.
  unfold upper in *. rewrite map_app in Hwhole. congruence.
Qed.

Lemma rstrip_by_prefix (p : ascii -> bool) (x : str) :
  exists t, x = rstrip_by p x ++ t.
Proof.
  induction x as [|c x (t & Ht)]; [exists []; reflexivity|].
  cbn [rstrip_by]. destruct (rstrip_by p x) as [|y r].
  - destruct (p c); [exists (c :: x) | exists x]; reflexivity.
  - exists t. change (c :: x = c :: ((y :: r) ++ t)). f_equal. exact Ht.
Qed.

Lemma search_from_position (r : Re.t) (s : str) :
  forall start pos group0,
    Re.search_from r start s = Some (pos, group0) ->
    exists k w post,
      pos = start + k /\ skipn k s = w ++ post /\ lang r w.
Proof.
  induction s as [|c s IH]; intros start pos g; cbn [Re.search_from];
    unfold Re.match_len.
  - destruct (Re.run r [] Re.anywhere) eqn:Hrun; [|discriminate].
    intros [= <- _]. apply ReFacts.run_sound in Hrun as (w & post & Hs & Hw & _).
    exists 0, w, post. rewrite Nat.add_0_r. repeat split; assumption.
  - destruct (Re.run r (c :: s) Re.anywhere) eqn:Hrun.
    + intros [= <- _].
      apply ReFacts.run_sound in Hrun as (w & post & Hs & Hw & _).
      exists 0, w, post. rewrite Nat.add_0_r. repeat split; assumption.
    + intros Hfound. apply IH in Hfound as (k & w & post & -> & Hk & Hw).
      exists (S k), w, post. repeat split; [lia | assumption | assumption].
Qed.

Lemma colon_not_upper (c : ascii) :
  Char.islower c = true \/ c = ","%char ->
  Char.eqb ":" (Char.upper c) = false.
Proof.
  intros [Hc | ->]; [|reflexivity]. revert Hc.
  destruct c as [[] [] [] [] [] [] [] []]; vm_compute; congruence.
Qed.

Lemma upper_not_space (c : ascii) :
  Char.isupper c = true -> Char.isspace c = false.
Proof.
  destruct c as [[] [] [] [] [] [] [] []]; vm_compute; congruence.
Qed.

(** An embedded name starts with a capital and its third character is a
    small letter or the comma. *)
Lemma embedded_name_shape (w : str) :
  lang EMBEDDED_NAME w ->
  exists u l c3 rest,
    w = u :: l :: c3 :: rest
    /\ Char.isupper u = true
    /\ (Char.islower c3 = true \/ c3 = ","%char).
Proof.
  unfold EMBEDDED_NAME, Re.Plus, Re.Upper, Re.Lower, Re.Lit1. cbn [lang].
  intros (wu & w1 & -> & (u & -> & Hu)
          & (wl & w2 & -> & (l1 & ls & -> & (l & -> & _) & (lws & -> & Hls))
             & (wc & w3 & -> & (comma & -> & Hcomma) & _))).
  unfold Char.eqb in Hcomma. apply Ascii.eqb_eq in Hcomma. subst comma.
  destruct Hls as [|x lws (c3 & -> & Hc3) _].
  - exists u, l, ","%char, w3. repeat split; auto.
  - exists u, l, c3, (concat lws ++ [","%char] ++ w3).
    repeat split; auto; cbn [app concat]; rewrite <- ?app_assoc; reflexivity.
Qed.

Lemma absorb_segment_pieces (field1 : str) (processed : list str)
  (segment : str) :
  trimmed segment -> startswith ";" segment = false ->
  Forall no_phone_prefix processed ->
  Forall no_phone_prefix (snd (absorb_segment (field1, processed) segment)).
Proof.
  intros Htrim Hsemi Hproc. unfold absorb_segment.
  destruct (is_empty segment) eqn:Hempty; [assumption|].
  destruct (startswith "PH:" (upper segment)) eqn:Hphone; [assumption|].
  destruct (should_skip_segment field1 segment); [assumption|].
  destruct segment as [|c s']; [discriminate|].
  pose proof (trimmed_head c s' Htrim) as Hc.
  assert (Hwhole : no_phone_prefix (c :: s')).
  { unfold no_phone_prefix. rewrite phone_prefix_head; assumption. }
  destruct (Re.search EMBEDDED_NAME (c :: s')) as [[[|n] g]|] eqn:Hsearch;
    cbn [snd]; try (apply Forall_app; split; [assumption|];
                    constructor; [assumption | constructor]).
  apply Forall_app. split; [assumption|].
  apply Forall_app. split; unfold keep_nonempty; cbn [filter].
  - destruct (is_empty (strip_space_semi _)) eqn:Hbefore; cbn [negb];
      constructor; [|constructor].
    unfold strip_space_semi, strip_by in *. cbn [firstn lstrip_by] in *.
    assert (Hss : in_space_semi c = false).
    { unfold in_space_semi. apply orb_false_iff. split.
      - apply eqb_blank; [assumption | reflexivity].
      - cbn [startswith lit String.list_ascii_of_string] in Hsemi.
        rewrite andb_true_r in Hsemi. unfold Char.eqb in *.
        rewrite Ascii.eqb_sym. assumption. }
    rewrite Hss in *.
    destruct (rstrip_by_prefix in_space_semi (c :: firstn n s')) as (t & Ht).
    apply (no_phone_prefix_of_prefix _ (t ++ skipn n s')).
    + rewrite app_assoc, <- Ht. cbn [app]. rewrite firstn_skipn. assumption.
    + intros c0 y' Hy. cbn [rstrip_by] in Hy. rewrite Hss in Hy.
      destruct (rstrip_by in_space_semi (firstn n s'));
        injection Hy as <- _; assumption.
  - destruct (is_empty (strip _)) eqn:Hafter; cbn [negb];
      constructor; [|constructor].
    unfold no_phone_prefix. rewrite (strip_trimmed (skipn (S n) (c :: s'))).
    apply search_from_position in Hsearch
      as (k & w & post & Hk & Hskip & Hw).
    cbn [Nat.add] in Hk. subst k. rewrite Hskip.
    apply embedded_name_shape in Hw as (u & l & c3 & rest & -> & Hu & Hc3).
    cbn [app]. rewrite phone_prefix_head by (apply upper_not_space; assumption).
    unfold upper. cbn [map startswith lit String.list_ascii_of_string].
    rewrite (colon_not_upper c3 Hc3), !andb_false_r. reflexivity.
Qed.

Lemma fold_absorb_pieces (segments : list str) :
  Forall (fun seg => trimmed seg /\ startswith ";" seg = false) segments ->
  forall field1 processed,
    Forall no_phone_prefix processed ->
    Forall no_phone_prefix
      (snd (fold_left absorb_segment segments (field1, processed))).
Proof.
  induction 1 as [|seg rest [Htrim Hsemi] _ IH]; intros field1 processed Hproc;
    cbn [fold_left]; [assumption|].
  pose proof (absorb_segment_pieces field1 processed seg Htrim Hsemi Hproc)
    as Hstep.
  destruct (absorb_segment (field1, processed) seg) as [field1' processed'].
  apply IH. assumption.
Qed.

Lemma phone_prefix_join (q tail : str) :
  q <> [] -> startswith "PH:" (upper q) = false ->
  startswith "PH:" (upper (q ++ lit "; " ++ tail)) = false.
Proof.
  intros Hq Hno. unfold upper in *.
  destruct q as [|a [|b [|c q']]]; [congruence| | |];
    cbn [app map startswith lit String.list_ascii_of_string] in *.
  - rewrite andb_false_r. reflexivity.
  - rewrite !andb_false_r. reflexivity.
  - assumption.
Qed.

Lemma join_parts_no_phone_prefix (parts : list str) :
  Forall no_phone_prefix parts -> no_phone_prefix (join_parts parts).
Proof.
  intros Hparts. unfold join_parts.
  assert (Hq : Forall (fun q => q <> [] /\ trimmed q
                                /\ startswith "PH:" (upper q) = false)
                 (keep_nonempty (map strip parts))).
  { apply Forall_forall. intros q Hin. unfold keep_nonempty in Hin.
    apply filter_In in Hin as [Hin Hne].
    apply negb_true_iff, is_empty_false in Hne.
    apply in_map_iff in Hin as (part & <- & Hpart).
    rewrite Forall_forall in Hparts.
    repeat split; [assumption | apply strip_trimmed | apply Hparts, Hpart]. }
  generalize dependent (keep_nonempty (map strip parts)).
  intros qs Hq.
  destruct Hq as [|q rest (Hne & Htrim & Hno) _]; [reflexivity|].
  destruct q as [|c q']; [congruence|].
  pose proof (trimmed_head c q' Htrim) as Hc.
  unfold no_phone_prefix.
  destruct rest as [|q2 rest].
  - cbn [join]. rewrite phone_prefix_head; assumption.
  - change (join "; " ((c :: q') :: q2 :: rest))
      with (c :: (q' ++ lit "; " ++ join "; " (q2 :: rest))).
    rewrite phone_prefix_head by assumption.
    apply (phone_prefix_join (c :: q')); [discriminate | assumption].
Qed.

Lemma clean_meeting_place_no_phone (text : str) :
  no_phone_prefix text -> clean_meeting_place text = Some (strip text).
Proof.
  unfold no_phone_prefix, clean_meeting_place. intros ->. reflexivity.
Qed.

Lemma format_event_segments_total (ev : list str) :
  (forall seg, In seg (tl ev) -> no_leading_semicolon seg) ->
  exists event_name meeting_place person,
    format_event_segments ev = Some (event_name, meeting_place, person).
Proof.
  intros Hsegs. destruct ev as [|first others];
    [exists [], [], []; reflexivity|].
  cbn [tl] in Hsegs. unfold format_event_segments.
  pose proof (fold_absorb_pieces
                (map strip
                   (filter (fun seg => negb (is_empty seg)
                                       && negb (is_empty (strip seg)))
                           others))) as Hpieces.
  specialize (fun Hraw => Hpieces Hraw (strip first) [] (Forall_nil _)).
  destruct (fold_left absorb_segment _ _) as [field1 processed].
  cbn [snd] in Hpieces. cbv zeta.
  assert (Hproc : Forall no_phone_prefix processed).
  { apply Hpieces. apply Forall_forall. intros seg Hin.
    apply in_map_iff in Hin as (raw & <- & Hraw).
    apply filter_In in Hraw as [Hraw _].
    split; [apply strip_trimmed | apply Hsegs; assumption]. }
  assert (Hkeep : Forall no_phone_prefix (keep_nonempty processed))
    by (apply Forall_forall; intros x Hx; unfold keep_nonempty in Hx;
        apply filter_In in Hx as [Hx _];
        rewrite Forall_forall in Hproc; auto).
  assert (Hfilter : forall f, Forall no_phone_prefix
                                (filter f (keep_nonempty processed)))
    by (intros f; apply Forall_forall; intros x Hx;
        apply filter_In in Hx as [Hx _];
        rewrite Forall_forall in Hkeep; auto).
  match goal with
  | |- exists _ _ _, (let '(_, _) := ?choice in _) = _ =>
      assert (Hchoice : Forall no_phone_prefix (fst choice));
      [|destruct choice as [meeting_parts person_parts]]
  end.
  { repeat match goal with
           | |- context [if ?b then _ else _] => destruct b
           end; cbn [fst]; auto. }
  cbn [fst] in Hchoice.
  rewrite (clean_meeting_place_no_phone _
             (join_parts_no_phone_prefix _ Hchoice)).
  eexists _, _, _. reflexivity.
Qed.

(** X5: [format_event_segments] cannot raise on an event none of whose
    segments after the first starts, once trimmed, with a semicolon: the
    meeting place it builds never starts with PH:, so the prefix removal
    of [clean_meeting_place] is not reached. *)
Theorem format_event_segments_succeeds (ev : list str) :
  (forall seg, In seg (tl ev) -> no_leading_semicolon seg) ->
  exists event_name meeting_place person,
    format_event_segments ev = Some (event_name, meeting_place, person).
Proof.
  apply format_event_segments_total.
Qed.

(** ** Field formatter: the normalization *)

Lemma squeeze_starts_nonblank (s : str) :
  starts_nonblank s = true -> squeeze true s = squeeze false s.
Proof.
  destruct s as [|c s]; [reflexivity|]. cbn [starts_nonblank squeeze].
  intros Hc. apply negb_true_iff in Hc. rewrite Hc. reflexivity.
Qed.

Lemma squeeze_squeezed (s : str) :
  squeezed s = true -> squeeze false s = s.
Proof.
  induction s as [|c s IH]; [reflexivity|].
  cbn [squeezed squeeze]. intros Hs.
  apply andb_true_iff in Hs as [Hc Hs].
  destruct (Char.isspace c); [|rewrite (IH Hs); reflexivity].
  apply andb_true_iff in Hc as [Hc Hnext].
  unfold Char.eqb in Hc. apply Ascii.eqb_eq in Hc. subst c.
  rewrite squeeze_starts_nonblank by exact Hnext.
  rewrite (IH Hs). reflexivity.
Qed.

Lemma squeeze_is_squeezed (s : str) :
  squeezed (squeeze false s) = true
  /\ squeezed (squeeze true s) = true
  /\ starts_nonblank (squeeze true s) = true.
Proof.
  induction s as [|c s (IH0 & IHrun & IHstart)]; [repeat split|].
  cbn [squeeze]. destruct (Char.isspace c) eqn:Hc.
  - repeat split; try assumption.
    cbn [squeezed]. rewrite IHrun.
    change (Char.isspace " ") with true. cbn [andb].
    rewrite andb_true_r. unfold Char.eqb. rewrite Ascii.eqb_refl.
    exact IHstart.
  - cbn [squeezed starts_nonblank]. rewrite Hc, IH0. repeat split.
Qed.

Lemma squeezed_tail (c : ascii) (s : str) :
  squeezed (c :: s) = true -> squeezed s = true.
Proof.
  cbn [squeezed]. intros Hs. apply andb_true_iff in Hs as [_ Hs]. exact Hs.
Qed.

Lemma squeezed_lstrip (p : ascii -> bool) (s : str) :
  squeezed s = true -> squeezed (lstrip_by p s) = true.
Proof.
  induction s as [|c s IH]; [auto|]. intros Hs. cbn [lstrip_by].
  destruct (p c); [apply IH, (squeezed_tail c); assumption | assumption].
Qed.

Lemma squeezed_rstrip (p : ascii -> bool) (s : str) :
  squeezed s = true -> squeezed (rstrip_by p s) = true.
Proof.
  induction s as [|c s IH]; [auto|]. intros Hs.
  pose proof (IH (squeezed_tail c s Hs)) as Hr.
  cbn [rstrip_by]. destruct (rstrip_by p s) as [|x r] eqn:Hrs.
  - destruct (p c); [reflexivity|]. cbn [squeezed] in *.
    apply andb_true_iff in Hs as [Hc _].
    destruct (Char.isspace c); [|reflexivity].
    apply andb_true_iff in Hc as [-> _]. reflexivity.
  - destruct s as [|d s']; [discriminate|].
    assert (Hhead : x = d).
    { cbn [rstrip_by] in Hrs.
      destruct (rstrip_by p s'); [destruct (p d); [discriminate|]|];
        injection Hrs as <- _; reflexivity. }
    subst x. cbn [squeezed] in Hs |- *.
    apply andb_true_iff in Hs as [Hc _]. rewrite Hc. exact Hr.
Qed.

Lemma in_space_semi_upper (c : ascii) :
  in_space_semi (Char.upper c) = in_space_semi c.
Proof.
  destruct c as [[] [] [] [] [] [] [] []]; reflexivity.
Qed.

Lemma upper_lstrip_space_semi (s : str) :
  upper (lstrip_by in_space_semi s) = lstrip_by in_space_semi (upper s).
Proof.
  induction s as [|c s IH]; [reflexivity|].
  unfold upper in *. cbn [map lstrip_by]. rewrite in_space_semi_upper.
  destruct (in_space_semi c); [apply IH | reflexivity].
Qed.

Lemma upper_rstrip_space_semi (s : str) :
  upper (rstrip_by in_space_semi s) = rstrip_by in_space_semi (upper s).
Proof.
  induction s as [|c s IH]; [reflexivity|].
  unfold upper in *. cbn [map rstrip_by]. rewrite <- IH, in_space_semi_upper.
  destruct (rstrip_by in_space_semi s); cbn [map];
    [destruct (in_space_semi c)|]; reflexivity.
Qed.

Lemma upper_squeeze (s : str) :
  forall in_run, upper (squeeze in_run s) = squeeze in_run (upper s).
Proof.
  induction s as [|c s IH]; intros in_run; [reflexivity|].
  unfold upper in *. cbn [map squeeze]. rewrite isspace_upper.
  destruct (Char.isspace c).
  - destruct in_run; cbn [map]; rewrite IH; reflexivity.
  - cbn [map]. rewrite IH. reflexivity.
Qed.

(** X6: [normalize_for_compare] is idempotent: a normalized text is in
    upper case, its blanks are single spaces and no space or semicolon is
    left around it, so normalizing it again changes nothing. *)
Theorem normalize_for_compare_idempotent (value : str) :
  normalize_for_compare (normalize_for_compare value)
  = normalize_for_compare value.
Proof.
  rewrite !normalize_for_compare_squeeze.
  unfold strip_space_semi, strip_by.
  rewrite upper_rstrip_space_semi, upper_lstrip_space_semi, upper_squeeze,
    upper_idem.
  set (x := upper value).
  assert (Hsq : squeezed
                  (rstrip_by in_space_semi
                     (lstrip_by in_space_semi (squeeze false x))) = true)
    by (apply squeezed_rstrip, squeezed_lstrip, squeeze_is_squeezed).
  rewrite (squeeze_squeezed _ Hsq).
  apply (strip_by_idem in_space_semi).
Qed.


Section Segmenter.

Context {C : Type} `{Coord C}.

(** ** Event segmenter: which lines are read *)

Lemma merge_line_blank (st : state C) (l : line C) :
  is_empty (strip (line_text l)) = true -> merge_line st l = Continue st.
Proof.
  intros Hblank. unfold merge_line. cbv zeta. rewrite Hblank. reflexivity.
Qed.

Lemma merge_line_continues (st : state C) (l : line C) :
  is_region_end l = false -> exists st', merge_line st l = Continue st'.
Proof.
  intros Hend. unfold merge_line. cbv zeta. rewrite Hend.
  repeat match goal with
         | |- exists _, (if ?b then _ else _) = _ => destruct b
         end; eexists; reflexivity.
Qed.

Lemma merge_loop_scanned (lines : list (line C)) :
  forall st, merge_loop st (scanned lines) = merge_loop st lines.
Proof.
  induction lines as [|l rest IH]; intros st; [reflexivity|].
  cbn [scanned merge_loop].
  destruct (is_empty (strip (line_text l))) eqn:Hblank.
  - rewrite merge_line_blank by assumption. apply IH.
  - destruct (is_region_end l) eqn:Hend.
    + rewrite merge_line_break by assumption. reflexivity.
    + cbn [merge_loop]. destruct (merge_line st l); [apply IH | reflexivity].
Qed.

Lemma merge_loop_skip (l : line C) (after : list (line C)) :
  (forall st, merge_line st l = Continue st) ->
  forall before st,
    merge_loop st (before ++ l :: after) = merge_loop st (before ++ after).
Proof.
  intros Hskip. induction before as [|l0 before IH]; intros st;
    cbn [app merge_loop].
  - rewrite Hskip. reflexivity.
  - destruct (merge_line st l0); [apply IH | reflexivity].
Qed.

Lemma merge_line_ignorable (st : state C) (l : line C) :
  ignorable l = true -> merge_line st l = Continue st.
Proof.
  unfold ignorable. intros Hign.
  apply orb_true_iff in Hign as [Hblank | Hign];
    [apply merge_line_blank; assumption|].
  apply andb_true_iff in Hign as [Hign Hsegs].
  apply andb_true_iff in Hign as [Hend Htime].
  apply negb_true_iff in Hend.
  unfold merge_line. cbv zeta.
  fold (time_words_of l). fold (event_words_of l). fold (line_segments l).
  rewrite Hend, Htime, Hsegs.
  destruct (is_empty (strip (line_text l))); reflexivity.
Qed.

(** X8: a line without text, or with no word in the time column and no
    segment in the event column, changes nothing: [merge_events] returns
    the same events with the line taken out of the scanned region. *)
Theorem merge_events_skips_empty_lines
  (before after : list (line C)) (l : line C) (start_index : nat) :
  ignorable l = true ->
  start_index <= length before ->
  merge_events (before ++ l :: after) start_index
  = merge_events (before ++ after) start_index.
Proof.
  intros Hign Hle. unfold merge_events. f_equal.
  rewrite !skipn_app.
  replace (start_index - length before) with 0 by lia.
  cbn [skipn]. apply merge_loop_skip.
  intros st. apply merge_line_ignorable. assumption.
Qed.

(** ** Event segmenter: where the segments go *)

Lemma content_flush_current (st : state C) :
  content (flush_current st) = content st.
Proof.
  unfold content, flush_current.
  cbn [events current_segments pending_location_segments].
  destruct (current_segments st) as [|s ss]; cbn [is_empty]; [reflexivity|].
  rewrite concat_app. cbn [concat app]. rewrite app_nil_r, <- app_assoc.
  reflexivity.
Qed.

Lemma content_extend_current (segments : list str) (st : state C) :
  Permutation (content (extend_current segments st)) (content st ++ segments).
Proof.
  unfold content, extend_current.
  cbn [events current_segments pending_location_segments].
  rewrite <- !app_assoc. do 2 apply Permutation_app_head.
  apply Permutation_app_comm.
Qed.

Lemma content_extend_pending (segments : list str) (st : state C) :
  content (extend_pending segments st) = content st ++ segments.
Proof.
  unfold content, extend_pending.
  cbn [events current_segments pending_location_segments].
  rewrite <- !app_assoc. reflexivity.
Qed.

Lemma content_seed_from_pending (st : state C) :
  content (seed_from_pending st) = content st.
Proof.
  unfold content, seed_from_pending.
  destruct (pending_location_segments st) as [|s ss] eqn:Hpend;
    cbn [is_empty]; [rewrite Hpend; reflexivity|].
  cbn [events current_segments pending_location_segments].
  rewrite app_nil_r. reflexivity.
Qed.

Lemma content_set_pending_new_event (b : bool) (st : state C) :
  content (set_pending_new_event b st) = content st.
Proof.
  reflexivity.
Qed.

Lemma content_set_current_event_x0 (x : option C) (st : state C) :
  content (set_current_event_x0 x st) = content st.
Proof.
  reflexivity.
Qed.

Lemma content_note_x0 (x : option C) (st : state C) :
  content (note_x0 x st) = content st.
Proof.
  unfold note_x0. destruct x, (current_event_x0 st); reflexivity.
Qed.

Lemma content_merge_x0 (x : option C) (st : state C) :
  content (merge_x0 x st) = content st.
Proof.
  unfold merge_x0. destruct x, (current_event_x0 st); reflexivity.
Qed.

Lemma content_resplit (x : option C) (st : state C) :
  content (resplit x st) = content st.
Proof.
  unfold resplit.
  destruct (find_split_from 0 (current_segments st)) as [i|]; [|reflexivity].
  cbv zeta.
  assert (Hsplit : content
            (set_pending_new_event false
               (extend_current (skipn i (current_segments st))
                  (flush_current
                     (set_current_segments
                        (firstn i (current_segments st)) st))))
          = content st).
  { unfold content, flush_current, extend_current, set_pending_new_event,
      set_current_segments.
    cbn [events current_segments pending_location_segments].
    rewrite <- (firstn_skipn i (current_segments st)) at 4.
    destruct (firstn i (current_segments st)); cbn [is_empty app];
      [reflexivity|].
    rewrite concat_app. cbn [concat app].
    rewrite app_nil_r, <- !app_assoc. reflexivity. }
  destruct x; [rewrite content_set_current_event_x0|]; exact Hsplit.
Qed.

Ltac content_step :=
  repeat first
    [ rewrite content_merge_x0
    | rewrite content_resplit
    | rewrite content_note_x0
    | rewrite content_set_current_event_x0
    | rewrite content_set_pending_new_event
    | rewrite content_seed_from_pending
    | rewrite content_flush_current
    | rewrite content_extend_pending
    | rewrite content_extend_current
    | match goal with
      | |- context [content (if ?b then _ else _)] => destruct b
      end ].

Lemma merge_line_content (st st' : state C) (l : line C) :
  is_empty (strip (line_text l)) = false ->
  merge_line st l = Continue st' ->
  Permutation (content st') (content st ++ line_segments l).
Proof.
  intros Htext. unfold merge_line. cbv zeta. rewrite Htext.
  fold (time_words_of l). fold (event_words_of l). fold (line_segments l).
  destruct (line_segments l) as [|s ss] eqn:Hsegs;
    cbn [is_empty negb andb];
    repeat match goal with
           | |- (if ?b then _ else _) = Continue _ -> _ => destruct b
           end;
    try discriminate; intros [= <-]; content_step;
    rewrite ?app_nil_r; reflexivity.
Qed.

Lemma merge_loop_content (lines : list (line C)) :
  forall st,
    Permutation (content (merge_loop st lines))
                (content st ++ flat_map line_segments (scanned lines)).
Proof.
  induction lines as [|l rest IH]; intros st; cbn [merge_loop scanned flat_map].
  - rewrite app_nil_r. reflexivity.
  - destruct (is_empty (strip (line_text l))) eqn:Hblank.
    + rewrite merge_line_blank by assumption. apply IH.
    + destruct (is_region_end l) eqn:Hend.
      * rewrite merge_line_break by assumption. cbn [flat_map].
        rewrite app_nil_r. reflexivity.
      * destruct (merge_line_continues st l Hend) as (st' & Hline).
        rewrite Hline. cbn [flat_map]. rewrite IH.
        rewrite (merge_line_content st st' l Hblank Hline).
        rewrite <- app_assoc. reflexivity.
Qed.

Lemma concat_extend_last (evs : list (list str)) (segments : list str) :
  evs <> [] -> concat (extend_last evs segments) = concat evs ++ segments.
Proof.
  intros Hne. unfold extend_last.
  rewrite (app_removelast_last [] Hne) at 3.
  rewrite !concat_app. cbn [concat]. rewrite !app_nil_r, app_assoc.
  reflexivity.
Qed.

Lemma finish_content (st : state C) :
  finish st <> [] -> concat (finish st) = content st.
Proof.
  unfold finish, content, flush_current. cbv zeta.
  destruct (pending_location_segments st) as [|p ps] eqn:Hpend;
    cbn [is_empty negb].
  - rewrite Hpend. cbn [events current_segments].
    destruct (current_segments st) as [|s ss]; cbn [is_empty]; intros _;
      [rewrite app_nil_r; reflexivity|].
    rewrite concat_app. cbn [concat]. rewrite !app_nil_r. reflexivity.
  - destruct (current_segments st) as [|s ss] eqn:Hcur;
      cbn [is_empty negb events current_segments].
    + destruct (events st) as [|e es] eqn:Hev;
        cbn [is_empty negb events current_segments].
      * congruence.
      * intros _. rewrite concat_extend_last by discriminate. reflexivity.
    + cbn [app is_empty]. intros _. rewrite concat_app. cbn [concat app].
      rewrite app_nil_r. reflexivity.
Qed.

Lemma merge_events_keeps_every_segment_aux
  (lines : list (line C)) (start_index : nat) :
  merge_events lines start_index <> [] ->
  Permutation (concat (merge_events lines start_index))
              (flat_map line_segments (scanned (skipn start_index lines))).
Proof.
  unfold merge_events. intros Hsome.
  rewrite (finish_content _ Hsome).
  rewrite merge_loop_content. reflexivity.
Qed.

(** X9: [merge_events] neither invents, duplicates nor loses text once
    it returns an event: the segments of the events it returns are, up to
    their order, exactly the segments of the lines of the region (those
    with a text, from the start index to the first boundary). *)
Theorem merge_events_keeps_every_segment
  (lines : list (line C)) (start_index : nat) :
  merge_events lines start_index <> [] ->
  Permutation (concat (merge_events lines start_index))
              (flat_map line_segments (scanned (skipn start_index lines))).
Proof.
  apply merge_events_keeps_every_segment_aux.
Qed.

Lemma merge_events_segment_source
  (lines : list (line C)) (start_index : nat) (ev : list str) (seg : str) :
  In ev (merge_events lines start_index) -> In seg ev ->
  exists l, In l (scanned (skipn start_index lines))
            /\ In seg (line_segments l).
Proof.
  intros Hev Hseg.
  assert (Hsome : merge_events lines start_index <> [])
    by (intros Hnil; rewrite Hnil in Hev; destruct Hev).
  assert (Hin : In seg (concat (merge_events lines start_index)))
    by (apply in_concat; exists ev; split; assumption).
  apply (Permutation_in _ (merge_events_keeps_every_segment_aux
                             lines start_index Hsome)) in Hin.
  apply in_flat_map in Hin. exact Hin.
Qed.

(** X10: every segment of every event [merge_events] returns is a segment
    of a line of the region, and so is non-empty, has no blank around it,
    holds no semicolon and is not the noise text BOI BOI. *)
Theorem merge_events_segments_are_clean
  (lines : list (line C)) (start_index : nat) (ev : list str) (seg : str) :
  In ev (merge_events lines start_index) -> In seg ev ->
  (exists l, In l (scanned (skipn start_index lines))
             /\ In seg (line_segments l))
  /\ seg <> [] /\ trimmed seg /\ ~ In ";"%char seg
  /\ upper seg <> lit "BOI BOI".
Proof.
  intros Hev Hseg.
  destruct (merge_events_segment_source lines start_index ev seg Hev Hseg)
    as (l & Hl & Hin).
  split; [exists l; split; assumption|].
  apply (split_event_text_In _ _ Hin).
Qed.

(** ** Event segmenter: when it returns no event *)

Lemma is_empty_app_false {A} (xs ys : list A) :
  is_empty ys = false -> is_empty (xs ++ ys) = false.
Proof.
  destruct xs, ys; cbn; congruence.
Qed.

Lemma started_flush_current (st : state C) :
  started (flush_current st) = started st.
Proof.
  unfold started, flush_current. cbn [events current_segments].
  destruct (current_segments st); cbn [is_empty negb];
    [rewrite orb_false_r; reflexivity|].
  rewrite is_empty_app_false by reflexivity. rewrite orb_true_r. reflexivity.
Qed.

Lemma started_extend_current (segments : list str) (st : state C) :
  started st = true \/ is_empty segments = false ->
  started (extend_current segments st) = true.
Proof.
  unfold started, extend_current. cbn [events current_segments].
  intros [Hst | Hsegs].
  - apply orb_true_iff in Hst as [-> | Hcur]; [reflexivity|].
    apply orb_true_iff. right.
    destruct (current_segments st); [discriminate | reflexivity].
  - rewrite (is_empty_app_false _ _ Hsegs). apply orb_true_r.
Qed.

Lemma started_extend_pending (segments : list str) (st : state C) :
  started st = true -> started (extend_pending segments st) = true.
Proof.
  intros Hst; exact Hst.
Qed.

Lemma started_seed_from_pending (st : state C) :
  started st = true -> started (seed_from_pending st) = true.
Proof.
  unfold seed_from_pending. intros Hst.
  destruct (is_empty (pending_location_segments st)); [assumption|].
  unfold started in *. cbn [events current_segments].
  apply orb_true_iff in Hst as [-> | Hcur]; [reflexivity|].
  apply orb_true_iff. right.
  destruct (current_segments st); [discriminate | reflexivity].
Qed.

Lemma started_set_pending_new_event (b : bool) (st : state C) :
  started st = true -> started (set_pending_new_event b st) = true.
Proof.
  intros Hst; exact Hst.
Qed.

Lemma started_set_current_event_x0 (x : option C) (st : state C) :
  started st = true -> started (set_current_event_x0 x st) = true.
Proof.
  intros Hst; exact Hst.
Qed.

Lemma started_note_x0 (x : option C) (st : state C) :
  started st = true -> started (note_x0 x st) = true.
Proof.
  intros Hst. unfold note_x0.
  destruct x, (current_event_x0 st); assumption.
Qed.

Lemma started_merge_x0 (x : option C) (st : state C) :
  started st = true -> started (merge_x0 x st) = true.
Proof.
  intros Hst. unfold merge_x0.
  destruct x, (current_event_x0 st); assumption.
Qed.

Lemma started_resplit (x : option C) (st : state C) :
  started st = true -> started (resplit x st) = true.
Proof.
  intros Hst. unfold resplit.
  destruct (find_split_from 0 (current_segments st)) as [i|]; [|assumption].
  cbv zeta.
  assert (Hsplit : started
            (set_pending_new_event false
               (extend_current (skipn i (current_segments st))
                  (flush_current
                     (set_current_segments
                        (firstn i (current_segments st)) st)))) = true).
  { apply started_set_pending_new_event.
    unfold started, extend_current, flush_current, set_current_segments in *.
    cbn [events current_segments] in *.
    destruct (firstn i (current_segments st)) as [|s ss] eqn:Hhead;
      cbn [is_empty app].
    - apply orb_true_iff in Hst as [-> | Hcur]; [reflexivity|].
      apply orb_true_iff. right.
      destruct (current_segments st) as [|c cs]; [discriminate|].
      destruct i; [reflexivity | discriminate]. 
    - rewrite is_empty_app_false by reflexivity. reflexivity. }
  destruct x; [apply started_set_current_event_x0|]; exact Hsplit.
Qed.

Ltac started_step :=
  repeat first
    [ assumption
    | apply started_merge_x0
    | apply started_resplit
    | apply started_note_x0
    | apply started_set_current_event_x0
    | apply started_set_pending_new_event
    | apply started_extend_pending
    | (apply started_extend_current; first [left; assumption | right; assumption])
    | (apply started_extend_current; left)
    | apply started_seed_from_pending
    | (rewrite started_flush_current)
    | match goal with
      | |- started (if ?b then _ else _) = true => destruct b
      end ].

Lemma merge_line_started (st st' : state C) (l : line C) :
  started st = true \/
  (is_empty (strip (line_text l)) = false
   /\ forallb is_location_segment (line_segments l) = false) ->
  merge_line st l = Continue st' -> started st' = true.
Proof.
  intros Hcase. unfold merge_line. cbv zeta.
  fold (time_words_of l). fold (event_words_of l). fold (line_segments l).
  destruct Hcase as [Hst | [Htext Hloc]].
  - repeat match goal with
           | |- (if ?b then _ else _) = Continue _ -> _ => destruct b
           end;
      try discriminate; intros [= <-]; started_step.
  - assert (Hsegs : is_empty (line_segments l) = false)
      by (destruct (line_segments l); [discriminate | reflexivity]).
    rewrite Htext, Hloc, Hsegs. cbn [negb andb].
    repeat match goal with
           | |- (if ?b then _ else _) = Continue _ -> _ => destruct b
           end;
      try discriminate; intros [= <-]; started_step.
Qed.

Lemma merge_loop_started (lines : list (line C)) :
  forall st,
    started st = true \/
    (exists l, In l (scanned lines)
               /\ forallb is_location_segment (line_segments l) = false) ->
    started (merge_loop st lines) = true.
Proof.
  induction lines as [|l rest IH]; intros st Hcase; cbn [merge_loop scanned] in *.
  - destruct Hcase as [Hst | (l & [] & _)]. assumption.
  - destruct (is_empty (strip (line_text l))) eqn:Hblank.
    + rewrite merge_line_blank by assumption. apply IH. assumption.
    + destruct (is_region_end l) eqn:Hend.
      * rewrite merge_line_break by assumption.
        destruct Hcase as [Hst | (l' & [] & _)]. assumption.
      * destruct (merge_line_continues st l Hend) as (st' & Hline).
        rewrite Hline. apply IH.
        destruct Hcase as [Hst | (l' & [<- | Hin] & Hloc)].
        -- left. apply (merge_line_started st st' l); auto.
        -- left. apply (merge_line_started st st' l); auto.
        -- right. exists l'. split; assumption.
Qed.

Lemma finish_started (st : state C) :
  started st = true -> finish st <> [].
Proof.
  unfold started, finish, flush_current. cbv zeta. intros Hst.
  destruct (pending_location_segments st) as [|p ps] eqn:Hp;
    destruct (current_segments st) as [|s ss] eqn:Hc;
    destruct (events st) as [|e es] eqn:He;
    cbn [is_empty negb orb events current_segments app] in *;
    rewrite ?Hc, ?He; cbn [is_empty app];
    try discriminate.
  unfold extend_last. destruct (removelast (e :: es)); discriminate.
Qed.

(** X11: [merge_events] returns no event only when every segment of
    every line of the region is a location segment (text that was held
    back for an event that never opened). *)
Theorem merge_events_empty_only_locations
  (lines : list (line C)) (start_index : nat) (l : line C) :
  merge_events lines start_index = [] ->
  In l (scanned (skipn start_index lines)) ->
  forallb is_location_segment (line_segments l) = true.
Proof.
  unfold merge_events. intros Hnone Hin.
  destruct (forallb is_location_segment (line_segments l)) eqn:Hloc;
    [reflexivity|].
  exfalso. apply (finish_started
                    (merge_loop initial_state (skipn start_index lines)));
    [|assumption].
  apply merge_loop_started. right. exists l. split; assumption.
Qed.

(** ** Event segmenter: time-stamped lines *)

Lemma merge_line_timed (st : state C) (l : line C) :
  timed_entry l = true ->
  pending_location_segments st = [] ->
  merge_line st l
  = Continue (State (events (flush_current st)) (line_segments l) false
                    (min_x0 (event_words_of l)) []).
Proof.
  unfold timed_entry. intros Htimed Hpend.
  apply andb_true_iff in Htimed as [Htimed Hperson].
  apply andb_true_iff in Htimed as [Htimed Hsegs].
  apply andb_true_iff in Htimed as [Htimed Htime].
  apply andb_true_iff in Htimed as [Htext Hend].
  apply negb_true_iff in Htext, Hend, Hperson.
  unfold merge_line. cbv zeta.
  fold (time_words_of l). fold (event_words_of l). fold (line_segments l).
  rewrite Htext, Hend, Htime, Hsegs, Hperson, !andb_false_r.
  unfold seed_from_pending, flush_current, extend_current,
    set_pending_new_event, set_current_event_x0.
  cbn [events current_segments pending_new_event current_event_x0
       pending_location_segments].
  rewrite Hpend. reflexivity.
Qed.

Lemma merge_loop_timed (lines : list (line C)) :
  forallb timed_entry lines = true ->
  forall st,
    pending_location_segments st = [] ->
    finish (merge_loop st lines)
    = events (flush_current st) ++ map line_segments lines.
Proof.
  induction lines as [|l rest IH]; cbn [forallb]; intros Hall st Hpend.
  - cbn [merge_loop map]. unfold finish. rewrite Hpend. cbn [is_empty].
    rewrite app_nil_r. reflexivity.
  - apply andb_true_iff in Hall as [Hl Hrest].
    cbn [merge_loop]. rewrite (merge_line_timed st l Hl Hpend).
    rewrite (IH Hrest) by reflexivity.
    unfold flush_current at 1. cbn [events current_segments map].
    unfold timed_entry in Hl.
    apply andb_true_iff in Hl as [Hl _].
    apply andb_true_iff in Hl as [_ Hsegs].
    apply negb_true_iff in Hsegs. rewrite Hsegs.
    rewrite <- app_assoc. reflexivity.
Qed.

(** X12: on a region made of lines that each carry a time stamp and
    event text that is not a list of persons, [merge_events] returns one
    event per line, in order, holding exactly that line's segments. *)
Theorem merge_events_one_event_per_timed_line
  (lines : list (line C)) (start_index : nat) :
  forallb timed_entry (skipn start_index lines) = true ->
  merge_events lines start_index
  = map line_segments (skipn start_index lines).
Proof.
  intros Hall. unfold merge_events.
  rewrite (merge_loop_timed _ Hall) by reflexivity. reflexivity.
Qed.

Lemma merge_line_timed_seeded (st : state C) (l : line C) :
  timed_entry l = true ->
  merge_line st l
  = Continue (State (events (flush_current st))
                    (pending_location_segments st ++ line_segments l) false
                    (min_x0 (event_words_of l)) []).
Proof.
  unfold timed_entry. intros Htimed.
  apply andb_true_iff in Htimed as [Htimed Hperson].
  apply andb_true_iff in Htimed as [Htimed Hsegs].
  apply andb_true_iff in Htimed as [Htimed Htime].
  apply andb_true_iff in Htimed as [Htext Hend].
  apply negb_true_iff in Htext, Hend, Hperson.
  unfold merge_line. cbv zeta.
  fold (time_words_of l). fold (event_words_of l). fold (line_segments l).
  rewrite Htext, Hend, Htime, Hsegs, Hperson, !andb_false_r.
  unfold seed_from_pending, flush_current, extend_current,
    set_pending_new_event, set_current_event_x0.
  cbn [events current_segments pending_new_event current_event_x0
       pending_location_segments].
  destruct (pending_location_segments st); reflexivity.
Qed.

Lemma merge_line_location_first (st : state C) (l : line C) :
  location_line l = true ->
  current_segments st = [] ->
  merge_line st l
  = Continue (note_x0 (min_x0 (event_words_of l))
                (extend_pending (line_segments l) st)).
Proof.
  unfold location_line. intros Hloc Hcur.
  apply andb_true_iff in Hloc as [Hloc Hall].
  apply andb_true_iff in Hloc as [Hloc Hsegs].
  apply andb_true_iff in Hloc as [Hloc Htime].
  apply andb_true_iff in Hloc as [Htext Hend].
  apply negb_true_iff in Htext, Hend, Hsegs.
  unfold merge_line. cbv zeta.
  fold (time_words_of l). fold (event_words_of l). fold (line_segments l).
  rewrite Htext, Hend, Htime, Hsegs, Hall, Hcur. cbn [is_empty negb andb].
  destruct (forallb is_person_segment (line_segments l)); reflexivity.
Qed.

(** X13: location text met before any event is open is held back and
    put at the front of the event the next time-stamped line opens: a
    location-only line followed by time-stamped lines gives one event per
    time-stamped line, the first one starting with the location
    segments. *)
Theorem merge_events_leading_location
  (l0 l1 : line C) (rest : list (line C)) :
  location_line l0 = true ->
  timed_entry l1 = true ->
  forallb timed_entry rest = true ->
  merge_events (l0 :: l1 :: rest) 0
  = (line_segments l0 ++ line_segments l1) :: map line_segments rest.
Proof.
  intros Hloc Htimed Hrest. unfold merge_events. cbn [skipn merge_loop].
  rewrite (merge_line_location_first initial_state l0 Hloc eq_refl).
  rewrite merge_line_timed_seeded by assumption.
  rewrite (merge_loop_timed rest Hrest) by reflexivity.
  assert (Hpend : pending_location_segments
                    (note_x0 (min_x0 (event_words_of l0))
                       (extend_pending (line_segments l0) initial_state))
                  = line_segments l0)
    by (unfold note_x0; destruct (min_x0 (event_words_of l0)); reflexivity).
  assert (Hev : events (flush_current
                    (note_x0 (min_x0 (event_words_of l0))
                       (extend_pending (line_segments l0) initial_state)))
                = [])
    by (unfold note_x0; destruct (min_x0 (event_words_of l0)); reflexivity).
  rewrite Hpend, Hev. unfold flush_current. cbn [events current_segments].
  unfold location_line in Hloc.
  apply andb_true_iff in Hloc as [Hloc _].
  apply andb_true_iff in Hloc as [_ Hsegs].
  apply negb_true_iff in Hsegs.
  destruct (line_segments l0); [discriminate|]. reflexivity.
Qed.

Lemma merge_events_past_end (lines : list (line C)) (start_index : nat) :
  length lines <= start_index -> merge_events lines start_index = [].
Proof.
  intros Hlen. unfold merge_events. rewrite skipn_all2 by assumption.
  reflexivity.
Qed.

End Segmenter.

Section Driver.

Context {C : Type} `{Coord C}.
Variable date : Type.
Variable strptime : str -> option date.
Variable isoformat : date -> str.
Variable cluster_objects : list (word C) -> list (list (word C)).

(** ** Line builder *)

Lemma insert_by_x0_perm (w : word C) (sorted : list (word C)) :
  Permutation (insert_by_x0 w sorted) (w :: sorted).
Proof.
  induction sorted as [|e rest IH]; cbn [insert_by_x0]; [reflexivity|].
  destruct (ltb (word_x0 w) (word_x0 e)); [reflexivity|].
  rewrite IH. apply perm_swap.
Qed.

Lemma sorted_by_x0_perm (cluster : list (word C)) :
  Permutation (sorted_by_x0 cluster) cluster.
Proof.
  unfold sorted_by_x0.
  assert (Hgen : forall acc,
             Permutation (fold_left (fun acc w => insert_by_x0 w acc)
                                    cluster acc)
                         (cluster ++ acc)).
  { induction cluster as [|w rest IH]; intros acc; cbn [fold_left app];
      [reflexivity|].
    rewrite IH, insert_by_x0_perm. symmetry. apply Permutation_middle. }
  rewrite Hgen, app_nil_r. reflexivity.
Qed.

Lemma build_lines_In (ws : list (word C)) (l : line C) :
  In l (build_lines cluster_objects ws) ->
  exists cluster,
    In cluster (cluster_objects ws)
    /\ line_words l = sorted_by_x0 cluster
    /\ line_text l = join_words (line_words l)
    /\ line_text l <> []
    /\ min_x0 (line_words l) = Some (line_x0 l).
Proof.
  unfold build_lines. intros Hin.
  apply in_flat_map in Hin as (cluster & Hcluster & Hin).
  cbv zeta in Hin.
  destruct (is_empty (join_words (sorted_by_x0 cluster))) eqn:Htext;
    [destruct Hin|].
  destruct (min_x0 (sorted_by_x0 cluster)) as [x|] eqn:Hmin;
    [|destruct Hin].
  destruct Hin as [<- | []]. exists cluster.
  cbn [line_words line_text line_x0].
  repeat split; try assumption. apply is_empty_false. assumption.
Qed.

(** X14: every line [build_lines] makes has a text that is not empty and
    has no blank around it, namely its words joined by single spaces and
    trimmed; it has at least one word, its [x0] is the least [x0] of its
    words as [min] finds it, and its words are the words of one cluster,
    reordered.  On such a line the boundary test of the segmenter, made
    on the trimmed text, is the test on the text itself. *)
Theorem build_lines_lines (ws : list (word C)) (l : line C) :
  In l (build_lines cluster_objects ws) ->
  line_text l <> []
  /\ trimmed (line_text l)
  /\ line_text l = join_words (line_words l)
  /\ line_words l <> []
  /\ min_x0 (line_words l) = Some (line_x0 l)
  /\ (exists cluster, In cluster (cluster_objects ws)
                      /\ Permutation (line_words l) cluster)
  /\ is_region_end l = boundary_as_specified l.
Proof.
  intros Hin.
  apply build_lines_In in Hin as (cluster & Hcluster & Hwords & Htext & Hne & Hmin).
  assert (Htrim : trimmed (line_text l))
    by (rewrite Htext; apply strip_trimmed).
  repeat split; try assumption.
  - intros Hnil. rewrite Hnil in Hmin. discriminate.
  - exists cluster. split; [assumption|].
    rewrite Hwords. apply sorted_by_x0_perm.
  - unfold is_region_end, boundary_as_specified. cbv zeta.
    rewrite Htrim. reflexivity.
Qed.

Lemma insert_by_x0_ordered (w : word C) (sorted : list (word C)) :
  (forall a b : C, ltb a b = true -> ltb b a = false) ->
  ordered_by_x0 sorted = true ->
  ordered_by_x0 (insert_by_x0 w sorted) = true.
Proof.
  intros Hasym. induction sorted as [|e rest IH]; [reflexivity|].
  intros Hsorted. cbn [insert_by_x0].
  destruct (ltb (word_x0 w) (word_x0 e)) eqn:Hwe.
  - cbn [ordered_by_x0]. rewrite (Hasym _ _ Hwe). exact Hsorted.
  - destruct rest as [|r rest'].
    + cbn [insert_by_x0 ordered_by_x0]. rewrite Hwe. reflexivity.
    + cbn [ordered_by_x0] in Hsorted.
      apply andb_true_iff in Hsorted as [Her Hrest].
      specialize (IH Hrest). cbn [insert_by_x0] in *.
      destruct (ltb (word_x0 w) (word_x0 r)).
      * cbn [ordered_by_x0] in *. rewrite Hwe. exact IH.
      * cbn [ordered_by_x0] in *. rewrite Her. exact IH.
Qed.

Lemma sorted_by_x0_ordered (cluster : list (word C)) :
  (forall a b : C, ltb a b = true -> ltb b a = false) ->
  ordered_by_x0 (sorted_by_x0 cluster) = true.
Proof.
  intros Hasym. unfold sorted_by_x0.
  assert (Hgen : forall acc,
             ordered_by_x0 acc = true ->
             ordered_by_x0 (fold_left (fun acc w => insert_by_x0 w acc)
                                      cluster acc) = true).
  { induction cluster as [|w rest IH]; intros acc Hacc; cbn [fold_left];
      [assumption|].
    apply IH, insert_by_x0_ordered; assumption. }
  apply Hgen. reflexivity.
Qed.

(** X15: when [<] on positions is asymmetric (as it is on floats), the
    words of every line [build_lines] makes are in reading order: no word
    starts left of the word before it. *)
Theorem build_lines_words_ordered (ws : list (word C)) (l : line C) :
  (forall a b : C, ltb a b = true -> ltb b a = false) ->
  In l (build_lines cluster_objects ws) ->
  ordered_by_x0 (line_words l) = true.
Proof.
  intros Hasym Hin.
  apply build_lines_In in Hin as (cluster & _ & -> & _).
  apply sorted_by_x0_ordered. assumption.
Qed.

(** ** Extraction driver: it does not raise *)

Lemma merge_events_no_leading_semicolon
  (lines : list (line C)) (start_index : nat) (ev : list str) (seg : str) :
  In ev (merge_events lines start_index) -> In seg ev ->
  no_leading_semicolon seg.
Proof.
  intros Hev Hseg.
  destruct (merge_events_segment_source lines start_index ev seg Hev Hseg)
    as (l & _ & Hin).
  apply split_event_text_In in Hin as (_ & Htrim & Hsemi & _).
  unfold no_leading_semicolon. rewrite Htrim.
  destruct seg as [|c seg']; [reflexivity|].
  cbn [startswith lit String.list_ascii_of_string].
  rewrite andb_true_r. unfold Char.eqb.
  destruct (Ascii.eqb ";" c) eqn:Hc; [|reflexivity].
  apply Ascii.eqb_eq in Hc. subst c. exfalso. apply Hsemi. left; reflexivity.
Qed.

Lemma format_events_total (day : str) (evs : list (list str)) :
  (forall ev seg, In ev evs -> In seg (tl ev) -> no_leading_semicolon seg) ->
  snd (format_events day evs) = true
  /\ length (fst (format_events day evs)) = length evs.
Proof.
  induction evs as [|ev rest IH]; intros Hevs; cbn [format_events];
    [split; reflexivity|].
  destruct (format_event_segments_total ev) as (name & place & person & Hfmt).
  { intros seg Hseg. apply (Hevs ev seg); [left; reflexivity | assumption]. }
  rewrite Hfmt.
  destruct IH as [Hok Hlen].
  { intros ev' seg Hev'. apply Hevs. right; assumption. }
  destruct (format_events day rest) as [rows ok].
  cbn [fst snd length] in *. split; [assumption | f_equal; assumption].
Qed.

Lemma format_merged_events_total
  (day : str) (lines : list (line C)) (start_index : nat) :
  snd (format_events day (merge_events lines start_index)) = true
  /\ length (fst (format_events day (merge_events lines start_index)))
     = length (merge_events lines start_index).
Proof.
  apply format_events_total. intros ev seg Hev Hseg.
  apply (merge_events_no_leading_semicolon lines start_index ev);
    [assumption|].
  destruct ev; [destruct Hseg | right; assumption].
Qed.

Lemma extract_page_completes (ws : list (word C)) :
  snd (extract_page date strptime isoformat cluster_objects ws) = true.
Proof.
  unfold extract_page. destruct (is_empty ws); [reflexivity|].
  destruct (extract_date _ _ _); [|reflexivity].
  destruct (find_day_line_index _); [|reflexivity].
  destruct (is_empty (merge_events _ _)); [reflexivity|].
  apply format_merged_events_total.
Qed.

(** pdfplumber, as in the definition of [extract_events]. *)
Variable path : Type.
Variable pdf : Type.
Variable page : Type.
Variable pdfplumber_open : path -> option pdf.
Variable pdf_pages : pdf -> option (list page).
Variable extract_words : page -> option (list (word C)).

Lemma extract_pages_all (pages : list page) :
  forall wss,
    map extract_words pages = map Some wss ->
    extract_pages date strptime isoformat cluster_objects page extract_words
      pages
    = (flat_map
         (fun ws =>
            fst (extract_page date strptime isoformat cluster_objects ws))
         wss,
       true).
Proof.
  induction pages as [|pg rest IH]; intros [|ws wss]; cbn [map];
    try discriminate; [reflexivity|].
  intros [= Hpg Hrest]. cbn [extract_pages flat_map]. rewrite Hpg.
  pose proof (extract_page_completes ws) as Hok.
  destruct (extract_page date strptime isoformat cluster_objects ws)
    as [rows ok].
  cbn [fst snd] in *. subst ok. rewrite (IH wss Hrest). reflexivity.
Qed.

Lemma extract_pages_fails (pg : page) (after : list page) :
  extract_words pg = None ->
  forall before wss,
    map extract_words before = map Some wss ->
    extract_pages date strptime isoformat cluster_objects page extract_words
      (before ++ pg :: after)
    = (flat_map
         (fun ws =>
            fst (extract_page date strptime isoformat cluster_objects ws))
         wss,
       false).
Proof.
  intros Hfail. induction before as [|pg0 before IH]; intros [|ws wss];
    cbn [map]; try discriminate.
  - intros _. cbn [app extract_pages flat_map]. rewrite Hfail. reflexivity.
  - intros [= Hpg Hrest]. cbn [app extract_pages flat_map]. rewrite Hpg.
    pose proof (extract_page_completes ws) as Hok.
    destruct (extract_page date strptime isoformat cluster_objects ws)
      as [rows ok].
    cbn [fst snd] in *. subst ok. rewrite (IH wss Hrest). reflexivity.
Qed.

Lemma extract_pages_raises (pages : list page) :
  snd (extract_pages date strptime isoformat cluster_objects page
         extract_words pages) = false <->
  exists pg, In pg pages /\ extract_words pg = None.
Proof.
  induction pages as [|pg rest IH]; cbn [extract_pages].
  - split; [discriminate | intros (pg & [] & _)].
  - destruct (extract_words pg) as [ws|] eqn:Hpg.
    + pose proof (extract_page_completes ws) as Hok.
      destruct (extract_page date strptime isoformat cluster_objects ws)
        as [rows ok].
      cbn [fst snd] in *. subst ok.
      destruct (extract_pages date strptime isoformat cluster_objects page
                  extract_words rest) as [rows' ok'].
      cbn [snd] in *. rewrite IH. split.
      * intros (pg' & Hin & Hnone). exists pg'. split; [right|]; assumption.
      * intros (pg' & [<- | Hin] & Hnone); [congruence|].
        exists pg'. split; assumption.
    + split; [|reflexivity]. intros _. exists pg. split; [left|]; auto.
Qed.

(** X16: [extract_events] raises only where pdfplumber does: when the
    document cannot be opened, its pages cannot be listed or the words of
    a page cannot be extracted; segmenting and formatting a page never
    raise.  Pages do not influence each other: when every page gives its
    words the records of the document are the records of its pages, page
    after page, and when the extraction of a page raises the records
    yielded before are those of the pages before it. *)
Theorem extract_events_page_by_page (pdf_path : path) :
  (snd (extract_events date strptime isoformat cluster_objects
          path pdf page pdfplumber_open pdf_pages extract_words pdf_path)
   = false <->
   pdfplumber_open pdf_path = None
   \/ exists doc,
       pdfplumber_open pdf_path = Some doc
       /\ (pdf_pages doc = None
           \/ exists pages pg,
               pdf_pages doc = Some pages
               /\ In pg pages /\ extract_words pg = None))
  /\ (forall doc pages wss,
         pdfplumber_open pdf_path = Some doc ->
         pdf_pages doc = Some pages ->
         map extract_words pages = map Some wss ->
         extract_events date strptime isoformat cluster_objects
           path pdf page pdfplumber_open pdf_pages extract_words pdf_path
         = (flat_map
              (fun ws =>
                 fst (extract_page date strptime isoformat cluster_objects
                        ws))
              wss,
            true))
  /\ (forall doc before pg after wss,
         pdfplumber_open pdf_path = Some doc ->
         pdf_pages doc = Some (before ++ pg :: after) ->
         map extract_words before = map Some wss ->
         extract_words pg = None ->
         extract_events date strptime isoformat cluster_objects
           path pdf page pdfplumber_open pdf_pages extract_words pdf_path
         = (flat_map
              (fun ws =>
                 fst (extract_page date strptime isoformat cluster_objects
                        ws))
              wss,
            false)).
Proof.
  unfold extract_events. split; [|split].
  - destruct (pdfplumber_open pdf_path) as [doc|];
      [|split; [left|]; reflexivity].
    destruct (pdf_pages doc) as [pages|] eqn:Hpages.
    + rewrite extract_pages_raises. split.
      * intros (pg & Hin & Hnone). right. exists doc.
        split; [reflexivity|]. right. exists pages, pg. auto.
      * intros [Hopen | (doc' & [= <-] & [Hnone | (pages' & pg & Hp & Hin & Hnone)])];
          [discriminate | congruence |].
        assert (pages' = pages) by congruence. subst pages'.
        exists pg. split; assumption.
    + split; [|reflexivity]. intros _. right. exists doc.
      split; [reflexivity | left; assumption].
  - intros doc pages wss -> -> Hwords. apply extract_pages_all. assumption.
  - intros doc before pg after wss -> -> Hwords Hfail.
    apply extract_pages_fails; assumption.
Qed.

(** X17: a page yields no record exactly when it has no word, no date
    that parses or no day-marker line; otherwise it yields one record per
    event of the segmenter, and one record when there is no event. *)
Theorem extract_page_record_count (ws : list (word C)) :
  let lines := build_lines cluster_objects ws in
  let rows := fst (extract_page date strptime isoformat cluster_objects ws) in
  (rows = [] <->
   ws = [] \/ extract_date date strptime lines = None
   \/ find_day_line_index lines = None)
  /\ (forall d day_idx,
         ws <> [] ->
         extract_date date strptime lines = Some d ->
         find_day_line_index lines = Some day_idx ->
         length rows = Nat.max 1 (length (merge_events lines (day_idx + 2)))).
Proof.
  cbv zeta. unfold extract_page.
  destruct ws as [|w ws']; cbn [is_empty].
  - split; [split; auto|]. intros d i Hws. congruence.
  - set (lines := build_lines cluster_objects (w :: ws')).
    destruct (extract_date date strptime lines) as [d|];
      [|split; [split; auto | discriminate]].
    destruct (find_day_line_index lines) as [i|];
      [|split; [split; auto | discriminate]].
    pose proof (format_merged_events_total (isoformat d) lines (i + 2))
      as [_ Hlen].
    destruct (merge_events lines (i + 2)) as [|ev evs] eqn:Hevs;
      cbn [is_empty fst].
    + split.
      * split; [discriminate|]. intros [? | [? | ?]]; discriminate.
      * intros d' i' _ [= <-] [= <-]. rewrite Hevs. reflexivity.
    + split.
      * split.
        -- intros Hnil. rewrite Hnil in Hlen. discriminate.
        -- intros [? | [? | ?]]; discriminate.
      * intros d' i' _ [= <-] [= <-]. rewrite Hevs, Hlen.
        cbn [length]. lia.
Qed.

(** X18: when the day-marker line is the last line of a page or the one
    before it, nothing is left to segment and the page yields exactly the
    placeholder record. *)
Theorem extract_page_day_marker_at_end
  (ws : list (word C)) (d : date) (day_idx : nat) :
  ws <> [] ->
  extract_date date strptime (build_lines cluster_objects ws) = Some d ->
  find_day_line_index (build_lines cluster_objects ws) = Some day_idx ->
  length (build_lines cluster_objects ws) <= day_idx + 2 ->
  extract_page date strptime isoformat cluster_objects ws
  = ([(isoformat d, [], [], [])], true).
Proof.
  intros Hws Hdate Hday Hlen. unfold extract_page.
  destruct ws; [congruence|]. cbn [is_empty].
  rewrite Hdate, Hday, merge_events_past_end by assumption. reflexivity.
Qed.

End Driver.

(** * The theorems on concrete inputs *)

Module Witness.

Lemma is_location_segment_rules_witness :
  contains "TELECONFERENCE" (upper " Teleconference line 5 ") = true
  /\ is_location_segment " Teleconference line 5 " = true.
Proof.
  split; [vm_compute; reflexivity|].
  apply (proj1 (is_location_segment_rules " Teleconference line 5 ")).
  vm_compute; reflexivity.
Defined.

Lemma keyword_rule_witness :
  reaches_keyword_rule "Budget HEARING" = true
  /\ should_force_new_event "Budget HEARING" [lit "Staff"]
     = negb (any_in LOCATION_HINTS (upper (strip "Budget HEARING"))).
Proof.
  split; [vm_compute; reflexivity|].
  apply keyword_rule_decides_by_location_hint.
  vm_compute; reflexivity.
Defined.

Lemma find_day_line_index_witness :
  nth_error Sample.lines 1 = Some Sample.day_line
  /\ is_day_line Sample.day_line = true
  /\ find_day_line_index Sample.lines = Some 1.
Proof.
  split; [vm_compute; reflexivity|].
  split; [vm_compute; reflexivity|].
  apply (proj2 (proj1 (find_day_line_index_first Sample.lines) 1)).
  split.
  - exists Sample.day_line. split; vm_compute; reflexivity.
  - intros [|j] l' Hj; [|lia].
    intros [= <-]. vm_compute; reflexivity.
Defined.


Lemma merge_events_stops_witness :
  3 <= 6
  /\ nth_error Sample.lines 6 = Some Sample.footer
  /\ boundary_as_specified Sample.footer = true
  /\ merge_events Sample.lines 3 = merge_events (firstn 6 Sample.lines) 3.
Proof.
  split; [lia|].
  split; [vm_compute; reflexivity|].
  split; [vm_compute; reflexivity|].
  apply (merge_events_stops_at_region_end Sample.lines 3 6 Sample.footer);
    [lia | vm_compute; reflexivity | left; vm_compute; reflexivity].
Defined.

Lemma events_and_records_witness :
  In Sample.first_row (fst (Sample.extract_page Sample.busy_page))
  /\ row_date Sample.first_row = lit "2023-09-15"
  /\ row_event_name Sample.first_row <> [].
Proof.
  split; [vm_compute; left; reflexivity|].
  apply (proj2 (events_and_records_nonempty
                  Sample.date Sample.strptime Sample.isoformat
                  Sample.cluster_objects)
               Sample.busy_page (2023, 9, 15)%Z 1 Sample.first_row);
    [vm_compute; reflexivity | vm_compute; reflexivity
     | vm_compute; discriminate | vm_compute; left; reflexivity].
Defined.

Lemma extract_page_placeholder_witness :
  Sample.extract_date (Sample.build_lines Sample.empty_page)
  = Some (2023, 9, 15)%Z
  /\ find_day_line_index (Sample.build_lines Sample.empty_page) = Some 1
  /\ merge_events (Sample.build_lines Sample.empty_page) 3 = []
  /\ Sample.extract_page Sample.empty_page
     = ([(lit "2023-09-15", [], [], [])], true).
Proof.
  split; [vm_compute; reflexivity|].
  split; [vm_compute; reflexivity|].
  split; [vm_compute; reflexivity|].
  refine (eq_trans
            (extract_page_placeholder
               Sample.date Sample.strptime Sample.isoformat
               Sample.cluster_objects Sample.empty_page (2023, 9, 15)%Z 1
               _ _ _ _) _);
    [discriminate | vm_compute; reflexivity | vm_compute; reflexivity
     | vm_compute; reflexivity | vm_compute; reflexivity].
Defined.

Lemma redundant_segment_witness :
  startswith "PH:" (upper (strip "staff meeting ;")) = false
  /\ duplicates "Budget Review; Staff  Meeting" "staff meeting ;"
  /\ format_event_segments
       [lit "Budget Review; Staff  Meeting"; lit "staff meeting ;"]
     = format_event_segments [lit "Budget Review; Staff  Meeting"].
Proof.
  split; [vm_compute; reflexivity|].
  split; [right; vm_compute; reflexivity|].
  apply redundant_segment_dropped;
    [vm_compute; reflexivity | right; vm_compute; reflexivity].
Defined.


(** ** The further properties on concrete inputs *)

Lemma split_event_text_segments_witness :
  In (lit "Room 4") (split_event_text "Staff mtg; Room 4 ;; boi boi")
  /\ trimmed (lit "Room 4") /\ ~ In ";"%char (lit "Room 4").
Proof.
  assert (Hin : In (lit "Room 4")
                   (split_event_text "Staff mtg; Room 4 ;; boi boi"))
    by (vm_compute; right; left; reflexivity).
  split; [exact Hin|].
  destruct (split_event_text_segments _ _ Hin) as (_ & Htrim & Hsemi & _).
  split; assumption.
Defined.

Lemma clean_meeting_place_cases_witness :
  startswith "PH:" (upper (strip "ph: x")) = true
  /\ contains "PH:" (strip "ph: x") = false
  /\ clean_meeting_place "ph: x" = None.
Proof.
  split; [vm_compute; reflexivity|].
  split; [vm_compute; reflexivity|].
  apply (proj2 (proj1 (clean_meeting_place_cases "ph: x"))).
  split; vm_compute; reflexivity.
Defined.

Lemma is_location_segment_insensitive_witness :
  upper (strip " room 400 ") = upper (strip "Room 400")
  /\ is_location_segment " room 400 " = is_location_segment "Room 400".
Proof.
  split; [vm_compute; reflexivity|].
  apply (proj2 (proj2 (is_location_segment_insensitive
                         " room 400 " "Room 400"))).
  vm_compute; reflexivity.
Defined.

Lemma event_name_witness :
  format_event_segments [lit " Budget "; lit "PH: 555"; lit "Room 4"]
  = Some (lit "Budget PH: 555", lit "Room 4", [])
  /\ exists appended, lit "Budget PH: 555" = strip " Budget " ++ appended.
Proof.
  assert (Hfmt : format_event_segments
                   [lit " Budget "; lit "PH: 555"; lit "Room 4"]
                 = Some (lit "Budget PH: 555", lit "Room 4", []))
    by (vm_compute; reflexivity).
  split; [exact Hfmt|].
  exact (proj1 (event_name_begins_with_first_segment _ _ _ _ _ Hfmt)).
Defined.

Lemma format_event_segments_succeeds_witness :
  no_leading_semicolon (lit "Room 4 Smith, John")
  /\ exists event_name meeting_place person,
      format_event_segments [lit "Budget"; lit "Room 4 Smith, John"]
      = Some (event_name, meeting_place, person).
Proof.
  split; [vm_compute; reflexivity|].
  apply format_event_segments_succeeds.
  intros seg [<- | []]. vm_compute; reflexivity.
Defined.


Lemma merge_events_skips_witness :
  ignorable Sample.blank_line = true
  /\ merge_events [Sample.timed_a; Sample.blank_line; Sample.timed_b] 0
     = merge_events [Sample.timed_a; Sample.timed_b] 0.
Proof.
  split; [vm_compute; reflexivity|].
  apply (merge_events_skips_empty_lines
           [Sample.timed_a] [Sample.timed_b] Sample.blank_line 0);
    [vm_compute; reflexivity | cbn; lia].
Defined.

Lemma merge_events_keeps_witness :
  merge_events Sample.lines 3 <> []
  /\ Permutation (concat (merge_events Sample.lines 3))
       (flat_map line_segments (scanned (skipn 3 Sample.lines))).
Proof.
  split; [vm_compute; discriminate|].
  apply merge_events_keeps_every_segment. vm_compute; discriminate.
Defined.

Lemma merge_events_segments_witness :
  In [lit "PH: John Doe"] (merge_events Sample.lines 3)
  /\ trimmed (lit "PH: John Doe") /\ ~ In ";"%char (lit "PH: John Doe").
Proof.
  assert (Hev : In [lit "PH: John Doe"] (merge_events Sample.lines 3))
    by (vm_compute; right; left; reflexivity).
  split; [exact Hev|].
  destruct (merge_events_segments_are_clean
              Sample.lines 3 _ (lit "PH: John Doe") Hev
              (or_introl eq_refl))
    as (_ & _ & Htrim & Hsemi & _).
  split; assumption.
Defined.

Lemma merge_events_empty_witness :
  merge_events [Sample.location_only] 0 = []
  /\ In Sample.location_only (scanned (skipn 0 [Sample.location_only]))
  /\ forallb is_location_segment (line_segments Sample.location_only) = true.
Proof.
  split; [vm_compute; reflexivity|].
  split; [vm_compute; left; reflexivity|].
  apply (merge_events_empty_only_locations [Sample.location_only] 0);
    [vm_compute; reflexivity | vm_compute; left; reflexivity].
Defined.

Lemma merge_events_timed_witness :
  forallb timed_entry (skipn 0 [Sample.timed_a; Sample.timed_b]) = true
  /\ merge_events [Sample.timed_a; Sample.timed_b] 0
     = map line_segments (skipn 0 [Sample.timed_a; Sample.timed_b]).
Proof.
  split; [vm_compute; reflexivity|].
  apply merge_events_one_event_per_timed_line. vm_compute; reflexivity.
Defined.

Lemma merge_events_leading_location_witness :
  location_line Sample.location_only = true
  /\ timed_entry Sample.timed_a = true
  /\ merge_events [Sample.location_only; Sample.timed_a; Sample.timed_b] 0
     = (line_segments Sample.location_only ++ line_segments Sample.timed_a)
         :: map line_segments [Sample.timed_b].
Proof.
  split; [vm_compute; reflexivity|].
  split; [vm_compute; reflexivity|].
  apply merge_events_leading_location; vm_compute; reflexivity.
Defined.

Lemma build_lines_lines_witness :
  In Sample.first_entry (Sample.build_lines Sample.busy_page)
  /\ trimmed (line_text Sample.first_entry)
  /\ min_x0 (line_words Sample.first_entry) = Some 40%Z.
Proof.
  assert (Hin : In Sample.first_entry (Sample.build_lines Sample.busy_page))
    by (vm_compute; do 3 right; left; reflexivity).
  split; [exact Hin|].
  destruct (@build_lines_lines Z Coord_Z Sample.cluster_objects
              Sample.busy_page Sample.first_entry Hin)
    as (_ & Htrim & _ & _ & Hmin & _).
  split; assumption.
Defined.

Lemma build_lines_words_ordered_witness :
  (forall a b : Z, ltb a b = true -> ltb b a = false)
  /\ In Sample.first_entry (Sample.build_lines Sample.busy_page)
  /\ ordered_by_x0 (line_words Sample.first_entry) = true.
Proof.
  assert (Hasym : forall a b : Z, ltb a b = true -> ltb b a = false).
  { intros a b Hab. cbn in *. apply Z.ltb_lt in Hab. apply Z.ltb_ge. lia. }
  assert (Hin : In Sample.first_entry (Sample.build_lines Sample.busy_page))
    by (vm_compute; do 3 right; left; reflexivity).
  split; [exact Hasym|]. split; [exact Hin|].
  exact (@build_lines_words_ordered Z Coord_Z Sample.cluster_objects
           Sample.busy_page Sample.first_entry Hasym Hin).
Defined.

Lemma extract_page_record_count_witness :
  Sample.busy_page <> []
  /\ Sample.extract_date (Sample.build_lines Sample.busy_page)
     = Some (2023, 9, 15)%Z
  /\ find_day_line_index (Sample.build_lines Sample.busy_page) = Some 1
  /\ length (fst (Sample.extract_page Sample.busy_page)) = 2.
Proof.
  split; [discriminate|].
  split; [vm_compute; reflexivity|].
  split; [vm_compute; reflexivity|].
  refine (eq_trans
            (proj2 (extract_page_record_count
                      Sample.date Sample.strptime Sample.isoformat
                      Sample.cluster_objects Sample.busy_page)
                   (2023, 9, 15)%Z 1 _ _ _) _);
    [discriminate | vm_compute; reflexivity | vm_compute; reflexivity
     | vm_compute; reflexivity].
Defined.

Lemma extract_page_day_marker_at_end_witness :
  length (Sample.build_lines Sample.empty_page) <= 1 + 2
  /\ Sample.extract_page Sample.empty_page
     = ([(lit "2023-09-15", [], [], [])], true).
Proof.
  split; [vm_compute; lia|].
  refine (eq_trans
            (extract_page_day_marker_at_end
               Sample.date Sample.strptime Sample.isoformat
               Sample.cluster_objects Sample.empty_page (2023, 9, 15)%Z 1
               _ _ _ _) _);
    [discriminate | vm_compute; reflexivity | vm_compute; reflexivity
     | vm_compute; lia | vm_compute; reflexivity].
Defined.

Lemma extract_events_witness :
  Sample.open_document "missing.pdf" = None
  /\ snd (Sample.extract_events "missing.pdf") = false
  /\ Sample.open_document "calendar.pdf"
     = Some [Sample.busy_page; Sample.empty_page]
  /\ Sample.extract_events "calendar.pdf"
     = (fst (Sample.extract_page Sample.busy_page)
          ++ fst (Sample.extract_page Sample.empty_page),
        true).
Proof.
  split; [vm_compute; reflexivity|].
  split.
  { unfold Sample.extract_events.
    apply (proj2 (proj1 (extract_events_page_by_page
                            Sample.date Sample.strptime Sample.isoformat
                            Sample.cluster_objects
                            str (list (list (word Z))) (list (word Z))
                            Sample.open_document Sample.document_pages
                            Sample.page_words (lit "missing.pdf")))).
    left. vm_compute; reflexivity. }
  split; [vm_compute; reflexivity|].
  unfold Sample.extract_events.
  refine (eq_trans
            (proj1 (proj2 (extract_events_page_by_page
                             Sample.date Sample.strptime Sample.isoformat
                             Sample.cluster_objects
                             str (list (list (word Z))) (list (word Z))
                             Sample.open_document Sample.document_pages
                             Sample.page_words (lit "calendar.pdf")))
               [Sample.busy_page; Sample.empty_page]
               [Sample.busy_page; Sample.empty_page]
               [Sample.busy_page; Sample.empty_page] _ _ _) _);
    vm_compute; reflexivity.
Defined.

End Witness.
